(** * USB-to-I2S bridge: the audio playback module

    A shallow embedding of [source/audio/audio_playback.c].

    The module keeps one global structure [g_playback] (sample buffer,
    write/read offsets, fill sizes, the two mode flags) and a pointer to the
    mailbox of the audio thread.  Its functions are modelled as functions on
    a [machine]: that structure, the mailbox pointer, and the log of the
    calls made into the collaborators (ChibiOS mailbox posts and USB driver
    calls), in the order the code issues them.

    Integers: [size_t] is 32 bit wide on the target (ARM Cortex-M); values
    are [Z] and every arithmetic result is reduced with [size_t_wrap].
    The sample buffer is a list of bytes (each a [Z] in [0, 256)), accessed
    by index; an access outside the array is the fault [OutOfBounds].
    [chDbgAssert] halts the system: the fault [AssertFailed].

    The critical sections ([chSysLockFromISR] / [chSysUnlockFromISR]) do not
    appear: the model is sequential, one call at a time. *)

From stdpp Require Import base numbers list.

Local Open Scope Z_scope.

(** ** Outcomes of a call *)

Inductive fault : Type :=
| AssertFailed   (* chDbgAssert failed: the system halts *)
| OutOfBounds.   (* an access outside the buffer array *)

Inductive outcome (A : Type) : Type :=
| Done (a : A)
| Fault (f : fault).

Arguments Done {A} a.
Arguments Fault {A} f.

Definition outcome_bind {A B : Type} (f : A -> outcome B) (o : outcome A) : outcome B :=
  match o with
  | Done a => f a
  | Fault e => Fault e
  end.

#[global] Instance outcome_mbind : MBind outcome := @outcome_bind.
#[global] Instance outcome_mret : MRet outcome := @Done.

(** ** Machine integers *)

Definition SIZE_T_BITS : Z := 32.

Definition size_t_wrap (z : Z) : Z := z mod 2 ^ SIZE_T_BITS.

Definition size_add (a b : Z) : Z := size_t_wrap (a + b).
Definition size_sub (a b : Z) : Z := size_t_wrap (a - b).
Definition size_mul (a b : Z) : Z := size_t_wrap (a * b).

(** ** Constants of the build

    The headers that define these macros are not part of the sources at
    hand; they are taken as parameters of the model. *)

Record audio_config : Type := {
  AUDIO_MAX_BUFFER_SIZE : Z;      (* nominal buffer size at the highest rate *)
  AUDIO_MAX_PACKET_SIZE : Z;      (* largest audio packet, in bytes *)
  AUDIO_CHANNEL_COUNT : Z;
  AUDIO_SAMPLE_SIZE : Z;          (* bytes per sample *)
  AUDIO_RESOLUTION_BIT : Z;       (* bits per sample *)
  AUDIO_BUFFER_PACKET_COUNT : Z;  (* nominal buffer size, in packets *)
  AUDIO_PLAYBACK_ENDPOINT : Z;
  AUDIO_FEEDBACK_ENDPOINT : Z;
  (* AUDIO_COMMON_GET_PACKET_SIZE(channel_count, sample_rate_hz, sample_size) *)
  AUDIO_COMMON_GET_PACKET_SIZE : Z -> Z -> Z -> Z
}.

(** Modelled from the spec: the macro [AUDIO_COMMON_GET_BUFFER_SIZE] is
    missing; the nominal buffer size is the packet size times the buffer
    capacity in packets. *)
Definition AUDIO_COMMON_GET_BUFFER_SIZE (packet_count packet_size : Z) : Z :=
  size_mul packet_count packet_size.

(** Modelled from the spec: the helper [wrap_unsigned] is missing; the write
    offset is normalised modulo the nominal buffer size.  (For
    [max_value = 0] the C remainder is undefined; [Z.modulo] then returns
    [value].  The properties below are about a configured buffer.) *)
Definition wrap_unsigned (value max_value : Z) : Z := value mod max_value.

(** Modelled from the spec: the helper [subtract_circular_unsigned] is
    missing; the fill size is the circular forward distance from the read
    offset [rhs] to the write offset [lhs], modulo the nominal buffer size. *)
Definition subtract_circular_unsigned (lhs rhs max_value : Z) : Z :=
  (lhs - rhs) mod max_value.

(** Modelled from the spec: the macro [SWAP_HALF_WORDS] is missing; it
    exchanges the two 16 bit halves of a 32 bit word. *)
Definition SWAP_HALF_WORDS (word : Z) : Z :=
  Z.lor (Z.shiftl (Z.land word 65535) 16) (Z.land (Z.shiftr word 16) 65535).

(** ** The sample buffer: bytes accessed by index *)

Definition load8 (buf : list Z) (i : Z) : outcome Z :=
  if decide (0 ≤ i) then
    match buf !! Z.to_nat i with
    | Some b => Done b
    | None => Fault OutOfBounds
    end
  else Fault OutOfBounds.

Definition store8 (buf : list Z) (i : Z) (v : Z) : outcome (list Z) :=
  if decide (0 ≤ i < Z.of_nat (length buf)) then
    Done (<[Z.to_nat i := v mod 256]> buf)
  else Fault OutOfBounds.

(** A 32 bit access through a [uint32_t *] (little endian). *)
Definition load32 (buf : list Z) (p : Z) : outcome Z :=
  b0 ← load8 buf p;
  b1 ← load8 buf (p + 1);
  b2 ← load8 buf (p + 2);
  b3 ← load8 buf (p + 3);
  Done (Z.lor b0 (Z.lor (Z.shiftl b1 8) (Z.lor (Z.shiftl b2 16) (Z.shiftl b3 24)))).

Definition store32 (buf : list Z) (p : Z) (w : Z) : outcome (list Z) :=
  buf ← store8 buf p w;
  buf ← store8 buf (p + 1) (Z.shiftr w 8);
  buf ← store8 buf (p + 2) (Z.shiftr w 16);
  store8 buf (p + 3) (Z.shiftr w 24).

(** [memcpy(buf + dst, buf + src, n)]: the source block is read as it stands
    before the call.  (C leaves a copy between overlapping blocks undefined;
    here the blocks overlap only when more than [src - dst] bytes are
    copied.) *)
Definition memcpy (buf : list Z) (dst src n : Z) : outcome (list Z) :=
  if decide (0 ≤ dst ∧ 0 ≤ src ∧ 0 ≤ n
             ∧ src + n ≤ Z.of_nat (length buf) ∧ dst + n ≤ Z.of_nat (length buf)) then
    Done (take (Z.to_nat dst) buf
          ++ take (Z.to_nat n) (drop (Z.to_nat src) buf)
          ++ drop (Z.to_nat (dst + n)) buf)
  else Fault OutOfBounds.

Definition ARRAY_LENGTH (buf : list Z) : Z := Z.of_nat (length buf).

(** ** The playback structure and the machine *)

Record audio_playback : Type := {
  packet_size : Z;              (* the nominal audio packet size *)
  buffer : list Z;              (* the audio sample buffer *)
  buffer_size : Z;              (* the nominal size of the audio buffer *)
  buffer_write_offset : Z;      (* current write offset in bytes (USB) *)
  buffer_read_offset : Z;       (* current read offset in bytes (I2S) *)
  buffer_target_fill_size : Z;  (* bytes to collect before starting playback *)
  buffer_fill_size : Z;         (* distance between read and write locations *)
  b_streaming_enabled : bool;   (* data is being received via USB *)
  b_playback_enabled : bool     (* data is being output via I2S *)
}.

Inductive audio_msg : Type :=
| AUDIO_COMMON_MSG_START_PLAYBACK
| AUDIO_COMMON_MSG_STOP_PLAYBACK.

#[global] Instance audio_msg_eq_dec : EqDecision audio_msg.
Proof. solve_decision. Defined.

(** Calls into the collaborators.  Pointers into the buffer are recorded as
    byte offsets from its start. *)
Inductive io_event : Type :=
| chMBPostI (mailbox : Z) (msg : audio_msg)
| usbStartTransmitI (usbp : Z) (ep : Z) (n : Z)
| usbStartReceiveI (usbp : Z) (ep : Z) (offset : Z) (n : Z).

Record machine : Type := {
  g_playback : audio_playback;
  gp_mailbox : Z;               (* address of the mailbox; 0 is NULL *)
  io_log : list io_event        (* calls issued so far, oldest first *)
}.

(** The I2S driver as the callback observes it. *)
Inductive i2sstate_t : Type :=
| I2S_UNINIT | I2S_STOP | I2S_READY | I2S_ACTIVE | I2S_COMPLETE.

#[global] Instance i2sstate_eq_dec : EqDecision i2sstate_t.
Proof. solve_decision. Defined.

Record I2SDriver : Type := {
  i2s_state : i2sstate_t;
  i2s_NDTR : Z                  (* dmatx->stream->NDTR *)
}.

(** Field updates of [g_playback]. *)
Definition with_playback (f : audio_playback -> audio_playback) (m : machine) : machine :=
  {| g_playback := f (g_playback m); gp_mailbox := gp_mailbox m; io_log := io_log m |}.

Definition emit (e : io_event) (m : machine) : machine :=
  {| g_playback := g_playback m; gp_mailbox := gp_mailbox m; io_log := io_log m ++ [e] |}.

Definition set_packet_size (v : Z) (p : audio_playback) : audio_playback :=
  {| packet_size := v; buffer := buffer p; buffer_size := buffer_size p;
     buffer_write_offset := buffer_write_offset p;
     buffer_read_offset := buffer_read_offset p;
     buffer_target_fill_size := buffer_target_fill_size p;
     buffer_fill_size := buffer_fill_size p;
     b_streaming_enabled := b_streaming_enabled p;
     b_playback_enabled := b_playback_enabled p |}.

Definition set_buffer (v : list Z) (p : audio_playback) : audio_playback :=
  {| packet_size := packet_size p; buffer := v; buffer_size := buffer_size p;
     buffer_write_offset := buffer_write_offset p;
     buffer_read_offset := buffer_read_offset p;
     buffer_target_fill_size := buffer_target_fill_size p;
     buffer_fill_size := buffer_fill_size p;
     b_streaming_enabled := b_streaming_enabled p;
     b_playback_enabled := b_playback_enabled p |}.

Definition set_buffer_size (v : Z) (p : audio_playback) : audio_playback :=
  {| packet_size := packet_size p; buffer := buffer p; buffer_size := v;
     buffer_write_offset := buffer_write_offset p;
     buffer_read_offset := buffer_read_offset p;
     buffer_target_fill_size := buffer_target_fill_size p;
     buffer_fill_size := buffer_fill_size p;
     b_streaming_enabled := b_streaming_enabled p;
     b_playback_enabled := b_playback_enabled p |}.

Definition set_buffer_write_offset (v : Z) (p : audio_playback) : audio_playback :=
  {| packet_size := packet_size p; buffer := buffer p; buffer_size := buffer_size p;
     buffer_write_offset := v;
     buffer_read_offset := buffer_read_offset p;
     buffer_target_fill_size := buffer_target_fill_size p;
     buffer_fill_size := buffer_fill_size p;
     b_streaming_enabled := b_streaming_enabled p;
     b_playback_enabled := b_playback_enabled p |}.

Definition set_buffer_read_offset (v : Z) (p : audio_playback) : audio_playback :=
  {| packet_size := packet_size p; buffer := buffer p; buffer_size := buffer_size p;
     buffer_write_offset := buffer_write_offset p;
     buffer_read_offset := v;
     buffer_target_fill_size := buffer_target_fill_size p;
     buffer_fill_size := buffer_fill_size p;
     b_streaming_enabled := b_streaming_enabled p;
     b_playback_enabled := b_playback_enabled p |}.

Definition set_buffer_target_fill_size (v : Z) (p : audio_playback) : audio_playback :=
  {| packet_size := packet_size p; buffer := buffer p; buffer_size := buffer_size p;
     buffer_write_offset := buffer_write_offset p;
     buffer_read_offset := buffer_read_offset p;
     buffer_target_fill_size := v;
     buffer_fill_size := buffer_fill_size p;
     b_streaming_enabled := b_streaming_enabled p;
     b_playback_enabled := b_playback_enabled p |}.

Definition set_buffer_fill_size (v : Z) (p : audio_playback) : audio_playback :=
  {| packet_size := packet_size p; buffer := buffer p; buffer_size := buffer_size p;
     buffer_write_offset := buffer_write_offset p;
     buffer_read_offset := buffer_read_offset p;
     buffer_target_fill_size := buffer_target_fill_size p;
     buffer_fill_size := v;
     b_streaming_enabled := b_streaming_enabled p;
     b_playback_enabled := b_playback_enabled p |}.

Definition set_b_streaming_enabled (v : bool) (p : audio_playback) : audio_playback :=
  {| packet_size := packet_size p; buffer := buffer p; buffer_size := buffer_size p;
     buffer_write_offset := buffer_write_offset p;
     buffer_read_offset := buffer_read_offset p;
     buffer_target_fill_size := buffer_target_fill_size p;
     buffer_fill_size := buffer_fill_size p;
     b_streaming_enabled := v;
     b_playback_enabled := b_playback_enabled p |}.

Definition set_b_playback_enabled (v : bool) (p : audio_playback) : audio_playback :=
  {| packet_size := packet_size p; buffer := buffer p; buffer_size := buffer_size p;
     buffer_write_offset := buffer_write_offset p;
     buffer_read_offset := buffer_read_offset p;
     buffer_target_fill_size := buffer_target_fill_size p;
     buffer_fill_size := buffer_fill_size p;
     b_streaming_enabled := b_streaming_enabled p;
     b_playback_enabled := v |}.

(** ** The functions of [audio_playback.c] *)

Section Playback.

Variable cfg : audio_config.

Definition audio_playback_get_buffer_size (m : machine) : Z :=
  buffer_size (g_playback m).

Definition audio_playback_get_buffer_fill_size (m : machine) : Z :=
  buffer_fill_size (g_playback m).

Definition audio_playback_get_buffer_target_fill_size (m : machine) : Z :=
  buffer_target_fill_size (g_playback m).

Definition audio_playback_get_packet_size (m : machine) : Z :=
  packet_size (g_playback m).

Definition audio_playback_is_enabled (m : machine) : bool :=
  b_playback_enabled (g_playback m).

Definition audio_playback_is_streaming_enabled (m : machine) : bool :=
  b_streaming_enabled (g_playback m).

Definition audio_playback_set_sample_rate (sample_rate_hz : Z) (m : machine) : machine :=
  let m := with_playback
             (set_packet_size
                (size_t_wrap (AUDIO_COMMON_GET_PACKET_SIZE cfg (AUDIO_CHANNEL_COUNT cfg)
                                sample_rate_hz (AUDIO_SAMPLE_SIZE cfg)))) m in
  let m := with_playback
             (set_buffer_size
                (AUDIO_COMMON_GET_BUFFER_SIZE (AUDIO_BUFFER_PACKET_COUNT cfg)
                   (packet_size (g_playback m)))) m in
  with_playback
    (set_buffer_target_fill_size
       (size_add (buffer_size (g_playback m) / 2) (packet_size (g_playback m) / 2))) m.

(** The loop over the received sample words: each word at [p_word] is
    replaced by its [SWAP_HALF_WORDS], then [p_word] moves to the next word. *)
Fixpoint swap_sample_words (word_count : nat) (p_word : Z) (buf : list Z) : outcome (list Z) :=
  match word_count with
  | O => Done buf
  | S n =>
      w ← load32 buf p_word;
      buf ← store32 buf p_word (SWAP_HALF_WORDS w);
      swap_sample_words n (p_word + 4) buf
  end.

(** The part of [audio_playback_update_write_offset] under
    [#if AUDIO_RESOLUTION_BIT == 32u]. *)
Definition swap_received_samples (transaction_size : Z) (p : audio_playback) : outcome (list Z) :=
  if decide (AUDIO_RESOLUTION_BIT cfg = 32) then
    swap_sample_words (Z.to_nat (transaction_size / AUDIO_SAMPLE_SIZE cfg))
      (buffer_write_offset p) (buffer p)
  else Done (buffer p).

Definition audio_playback_update_write_offset (transaction_size : Z) (m : machine) : outcome machine :=
  let p := g_playback m in
  let new_buffer_write_offset := size_add (buffer_write_offset p) transaction_size in
  if decide (new_buffer_write_offset < ARRAY_LENGTH (buffer p)) then
    buf ← swap_received_samples transaction_size p;
    buf ← (if decide (buffer_size p < new_buffer_write_offset) then
             let excess_byte_count := size_sub new_buffer_write_offset (buffer_size p) in
             memcpy buf 0 (buffer_size p) excess_byte_count
           else Done buf);
    Done (with_playback
            (fun p => set_buffer_write_offset
                        (wrap_unsigned new_buffer_write_offset (buffer_size p))
                        (set_buffer buf p)) m)
  else Fault AssertFailed.

Definition audio_playback_update_read_offset (i2s : I2SDriver) (m : machine) : machine :=
  let ndtr_value := size_t_wrap (i2s_NDTR i2s) in
  let transferrable_sample_count :=
    if decide (AUDIO_RESOLUTION_BIT cfg = 32) then ndtr_value / 2 else ndtr_value in
  if decide (i2s_state i2s = I2S_ACTIVE) then
    with_playback
      (fun p => set_buffer_read_offset
                  (size_sub (buffer_size p)
                     (size_mul (AUDIO_SAMPLE_SIZE cfg) transferrable_sample_count)) p) m
  else with_playback (set_buffer_read_offset 0) m.

Definition audio_playback_update_fill_size (m : machine) : machine :=
  with_playback
    (fun p => set_buffer_fill_size
                (subtract_circular_unsigned (buffer_write_offset p) (buffer_read_offset p)
                   (buffer_size p)) p) m.

Definition audio_playback_start (m : machine) : machine :=
  if audio_playback_is_enabled m then m
  else if decide (buffer_target_fill_size (g_playback m) ≤ buffer_fill_size (g_playback m)) then
    emit (chMBPostI (gp_mailbox m) AUDIO_COMMON_MSG_START_PLAYBACK)
      (with_playback (set_b_playback_enabled true) m)
  else m.

Definition audio_playback_init (p_mailbox : Z) (streaming_enabled : bool) (m : machine) : machine :=
  {| g_playback :=
       set_b_streaming_enabled streaming_enabled
         (set_b_playback_enabled false
            (set_buffer_fill_size 0
               (set_buffer_read_offset 0
                  (set_buffer_write_offset 0 (g_playback m)))));
     gp_mailbox := p_mailbox;
     io_log := io_log m |}.

Definition audio_playback_reset (m : machine) : machine :=
  audio_playback_init (gp_mailbox m) (b_streaming_enabled (g_playback m)) m.

Definition audio_playback_stop (m : machine) : machine :=
  if negb (audio_playback_is_enabled m) then m
  else
    let m := audio_playback_reset m in
    emit (chMBPostI (gp_mailbox m) AUDIO_COMMON_MSG_STOP_PLAYBACK) m.

(** [transaction_size] is what [usbGetReceiveTransactionSizeX(usbp, ep)]
    returns, [i2s] what the I2S driver shows during the call. *)
Definition audio_playback_received_cb (usbp ep : Z) (transaction_size : Z) (i2s : I2SDriver)
    (m : machine) : outcome machine :=
  if negb (b_streaming_enabled (g_playback m)) then Done m
  else
    m ← (if decide (transaction_size = 0) then Done (audio_playback_stop m)
         else
           m ← audio_playback_update_write_offset transaction_size m;
           Done (audio_playback_start
                   (audio_playback_update_fill_size
                      (audio_playback_update_read_offset i2s m))));
    Done (emit (usbStartReceiveI usbp ep (buffer_write_offset (g_playback m))
                  (AUDIO_MAX_PACKET_SIZE cfg)) m).

Definition audio_playback_start_streaming (usbp : Z) (m : machine) : machine :=
  if b_streaming_enabled (g_playback m) then m
  else
    let m := audio_playback_reset m in
    let m := with_playback (set_b_streaming_enabled true) m in
    let m := emit (usbStartTransmitI usbp (AUDIO_FEEDBACK_ENDPOINT cfg) 0) m in
    emit (usbStartReceiveI usbp (AUDIO_PLAYBACK_ENDPOINT cfg)
            (buffer_write_offset (g_playback m)) (AUDIO_MAX_PACKET_SIZE cfg)) m.

Definition audio_playback_stop_streaming (usbp : Z) (m : machine) : machine :=
  if negb (b_streaming_enabled (g_playback m)) then m
  else
    let m := with_playback (set_b_streaming_enabled false) m in
    audio_playback_stop m.

(** The machine at program start: static storage is zero. *)
Definition initial_machine : machine :=
  {| g_playback :=
       {| packet_size := 0;
          buffer := replicate (Z.to_nat (AUDIO_MAX_BUFFER_SIZE cfg + AUDIO_MAX_PACKET_SIZE cfg)) 0;
          buffer_size := 0;
          buffer_write_offset := 0;
          buffer_read_offset := 0;
          buffer_target_fill_size := 0;
          buffer_fill_size := 0;
          b_streaming_enabled := false;
          b_playback_enabled := false |};
     gp_mailbox := 0;
     io_log := [] |}.

(** ** Calls from outside the module *)

Inductive call : Type :=
| CallInit (p_mailbox : Z) (streaming_enabled : bool)
| CallSetSampleRate (sample_rate_hz : Z)
| CallStartStreaming (usbp : Z)
| CallStopStreaming (usbp : Z)
| CallReceived (usbp ep : Z) (transaction_size : Z) (i2s : I2SDriver).

Definition step (c : call) (m : machine) : outcome machine :=
  match c with
  | CallInit p_mailbox b => Done (audio_playback_init p_mailbox b m)
  | CallSetSampleRate r => Done (audio_playback_set_sample_rate r m)
  | CallStartStreaming usbp => Done (audio_playback_start_streaming usbp m)
  | CallStopStreaming usbp => Done (audio_playback_stop_streaming usbp m)
  | CallReceived usbp ep n i2s => audio_playback_received_cb usbp ep n i2s m
  end.

Fixpoint run (cs : list call) (m : machine) : outcome machine :=
  match cs with
  | [] => Done m
  | c :: cs => m ← step c m; run cs m
  end.

(** The machine a sequence of calls leads to from program start (the
    machine at program start if the sequence halts the system). *)
Definition after (cs : list call) : machine :=
  match run cs initial_machine with
  | Done m => m
  | Fault _ => initial_machine
  end.

(** Notifications posted to the mailbox: the number of [chMBPostI] calls
    with message [msg] among [events]. *)
Definition is_post (msg : audio_msg) (e : io_event) : bool :=
  match e with
  | chMBPostI _ msg' => bool_decide (msg' = msg)
  | _ => false
  end.

Definition posted (msg : audio_msg) (events : list io_event) : nat :=
  length (List.filter (is_post msg) events).

End Playback.

(** ** Well-formed configurations and machines *)

Record config_wf (cfg : audio_config) : Prop := {
  cfg_max_buffer_nonneg : 0 ≤ AUDIO_MAX_BUFFER_SIZE cfg;
  cfg_max_packet_nonneg : 0 ≤ AUDIO_MAX_PACKET_SIZE cfg;
  (* the array fits the address space *)
  cfg_capacity_size_t : AUDIO_MAX_BUFFER_SIZE cfg + AUDIO_MAX_PACKET_SIZE cfg < 2 ^ SIZE_T_BITS;
  (* 32 bit samples are the words the swap loop walks over *)
  cfg_sample_word : AUDIO_RESOLUTION_BIT cfg = 32 → AUDIO_SAMPLE_SIZE cfg = 4
}.

Record machine_wf (cfg : audio_config) (m : machine) : Prop := {
  wf_buffer_length :
    ARRAY_LENGTH (buffer (g_playback m)) = AUDIO_MAX_BUFFER_SIZE cfg + AUDIO_MAX_PACKET_SIZE cfg;
  wf_write_offset : 0 ≤ buffer_write_offset (g_playback m);
  wf_buffer_size : 0 ≤ buffer_size (g_playback m)
}.

(** The bytes of the buffer after the tail has been copied back. *)
Definition copy_back (b1 : list Z) (size excess : Z) : list Z :=
  take (Z.to_nat excess) (drop (Z.to_nat size) b1) ++ drop (Z.to_nat excess) b1.

(** Events logged by a call that took [m] to [m']. *)
Definition events_since (m m' : machine) : list io_event :=
  drop (length (io_log m)) (io_log m').

(** The invariant of the mode flags. *)
Definition playback_implies_streaming (m : machine) : Prop :=
  b_playback_enabled (g_playback m) = true → b_streaming_enabled (g_playback m) = true.

(** ** Example builds and sessions *)

(** 16 bit stereo; the array is sized for 96 kHz. *)
Definition config_16bit : audio_config :=
  {| AUDIO_MAX_BUFFER_SIZE := 3072;
     AUDIO_MAX_PACKET_SIZE := 384;
     AUDIO_CHANNEL_COUNT := 2;
     AUDIO_SAMPLE_SIZE := 2;
     AUDIO_RESOLUTION_BIT := 16;
     AUDIO_BUFFER_PACKET_COUNT := 8;
     AUDIO_PLAYBACK_ENDPOINT := 1;
     AUDIO_FEEDBACK_ENDPOINT := 2;
     AUDIO_COMMON_GET_PACKET_SIZE := fun channels rate size => channels * (rate / 1000) * size |}.

(** 32 bit stereo, a small buffer: two packets of two frames each. *)
Definition config_32bit : audio_config :=
  {| AUDIO_MAX_BUFFER_SIZE := 32;
     AUDIO_MAX_PACKET_SIZE := 16;
     AUDIO_CHANNEL_COUNT := 2;
     AUDIO_SAMPLE_SIZE := 4;
     AUDIO_RESOLUTION_BIT := 32;
     AUDIO_BUFFER_PACKET_COUNT := 2;
     AUDIO_PLAYBACK_ENDPOINT := 1;
     AUDIO_FEEDBACK_ENDPOINT := 2;
     AUDIO_COMMON_GET_PACKET_SIZE := fun channels rate size => channels * (rate / 1000) * size |}.

Definition i2s_idle : I2SDriver := {| i2s_state := I2S_READY; i2s_NDTR := 0 |}.

Definition i2s_running (ndtr : Z) : I2SDriver := {| i2s_state := I2S_ACTIVE; i2s_NDTR := ndtr |}.

(** A session at 48 kHz on [config_16bit]: five packets of 192 bytes arrive
    while the I2S side is idle. *)
Definition session_48k : list call :=
  [CallInit 5 false; CallSetSampleRate 48000; CallStartStreaming 7]
  ++ replicate 5 (CallReceived 7 1 192 i2s_idle).

Definition playing_machine : machine := after config_16bit session_48k.

(** The same session two packets later, then a short packet: the write
    offset stands at 1500. *)
Definition machine_at_1500 : machine :=
  after config_16bit
    (session_48k ++ replicate 2 (CallReceived 7 1 192 (i2s_running 700))
       ++ [CallReceived 7 1 156 (i2s_running 650)]).

(** C1, as the claim states it: a failed transaction during playback turns
    both playback and streaming off and posts one stop message. *)
Definition failed_transaction_stops_streaming
    (cfg : audio_config) (usbp ep : Z) (i2s : I2SDriver) (m : machine) : Prop :=
  b_playback_enabled (g_playback m) = true →
  b_streaming_enabled (g_playback m) = true →
  ∃ m', audio_playback_received_cb cfg usbp ep 0 i2s m = Done m'
        ∧ b_playback_enabled (g_playback m') = false
        ∧ b_streaming_enabled (g_playback m') = false
        ∧ posted AUDIO_COMMON_MSG_STOP_PLAYBACK (events_since m m') = 1%nat.

(** Calls that stay within a streaming session: packets of non-zero size,
    a change of the sample rate, a repeated start. *)
Definition in_session (c : call) : Prop :=
  match c with
  | CallReceived _ _ transaction_size _ => transaction_size ≠ 0
  | CallSetSampleRate _ | CallStartStreaming _ => True
  | CallInit _ _ | CallStopStreaming _ => False
  end.

(** Calls that end playback: an explicit stop ([audio_playback_stop_streaming],
    or the module being initialised again) and a failed transaction. *)
Definition ends_playback (c : call) : Prop :=
  match c with
  | CallStopStreaming _ | CallInit _ _ => True
  | CallReceived _ _ transaction_size _ => transaction_size = 0
  | CallSetSampleRate _ | CallStartStreaming _ => False
  end.

(** Packets that arrive while the I2S side has nearly caught up with the
    write offset: the fill size drops to 192 and 64, below the target 864. *)
Definition draining_packets : list call :=
  [CallReceived 7 1 192 (i2s_running 288); CallReceived 7 1 128 (i2s_running 160)].

(** C5, as the claim states it: the capacity a write is checked against is
    the nominal buffer size plus the maximum packet size. *)
Definition write_checked_against_nominal_capacity
    (cfg : audio_config) (ts : Z) (m : machine) : Prop :=
  let p := g_playback m in
  let capacity := buffer_size p + AUDIO_MAX_PACKET_SIZE cfg in
  (¬ buffer_write_offset p + ts < capacity →
   audio_playback_update_write_offset cfg ts m = Fault AssertFailed)
  ∧ (buffer_write_offset p + ts < capacity →
     ∃ m', audio_playback_update_write_offset cfg ts m = Done m').

(** A machine built with 32 bit samples whose write offset stands at 28:
    eight more bytes cross the nominal end at 32. *)
Definition machine_32bit_at_28 : machine :=
  after config_32bit
    [CallInit 5 false; CallSetSampleRate 2000; CallStartStreaming 7;
     CallReceived 7 1 16 i2s_idle; CallReceived 7 1 12 i2s_idle].

(** ** Notifications and armed receptions in the log *)

(** The messages posted to the mailbox, oldest first. *)
Definition posts (events : list io_event) : list audio_msg :=
  flat_map (fun e => match e with
                     | chMBPostI _ msg => [msg]
                     | _ => []
                     end) events.

(** What the receiver of the messages sees: a start message is expected
    while output is off, a stop message while it is on.  [None] when a
    message arrives out of turn, otherwise whether output is on at the end. *)
Fixpoint replay_posts (playing : bool) (msgs : list audio_msg) : option bool :=
  match msgs with
  | [] => Some playing
  | AUDIO_COMMON_MSG_START_PLAYBACK :: rest =>
      if playing then None else replay_posts true rest
  | AUDIO_COMMON_MSG_STOP_PLAYBACK :: rest =>
      if playing then replay_posts false rest else None
  end.

(** The post that goes with a change of [b_playback_enabled]. *)
Definition transition_posts (mailbox : Z) (before after : bool) : list io_event :=
  match before, after with
  | false, true => [chMBPostI mailbox AUDIO_COMMON_MSG_START_PLAYBACK]
  | true, false => [chMBPostI mailbox AUDIO_COMMON_MSG_STOP_PLAYBACK]
  | _, _ => []
  end.

Definition posted_to (mailbox : Z) (e : io_event) : Prop :=
  match e with
  | chMBPostI mailbox' _ => mailbox' = mailbox
  | _ => True
  end.

Definition not_init (c : call) : Prop :=
  match c with
  | CallInit _ _ => False
  | _ => True
  end.

(** The messages in the log are in turn and agree with the playback flag. *)
Definition posts_in_turn (m : machine) : Prop :=
  replay_posts false (posts (io_log m)) = Some (b_playback_enabled (g_playback m)).

(** A failed transaction during playback, a second buffering phase, then
    the end of the session on [config_16bit]. *)
Definition restart_calls : list call :=
  [CallReceived 7 1 0 i2s_idle]
  ++ replicate 5 (CallReceived 7 1 192 i2s_idle)
  ++ [CallSetSampleRate 48000; CallStopStreaming 7; CallStartStreaming 8].

(** ** Traffic within the limits of the build *)

(** The nominal buffer size that [audio_playback_set_sample_rate] computes
    for a rate is positive and at most the maximum. *)
Definition rate_fits (cfg : audio_config) (sample_rate_hz : Z) : Prop :=
  let size := AUDIO_COMMON_GET_BUFFER_SIZE (AUDIO_BUFFER_PACKET_COUNT cfg)
                (size_t_wrap (AUDIO_COMMON_GET_PACKET_SIZE cfg (AUDIO_CHANNEL_COUNT cfg)
                                sample_rate_hz (AUDIO_SAMPLE_SIZE cfg))) in
  0 < size ≤ AUDIO_MAX_BUFFER_SIZE cfg.

(** Transactions of at most [AUDIO_MAX_PACKET_SIZE] bytes, sample rates that
    fit the array. *)
Definition traffic_ok (cfg : audio_config) (c : call) : Prop :=
  match c with
  | CallReceived _ _ transaction_size _ => 0 ≤ transaction_size ≤ AUDIO_MAX_PACKET_SIZE cfg
  | CallSetSampleRate sample_rate_hz => rate_fits cfg sample_rate_hz
  | _ => True
  end.

(** A configured machine whose write offset lies in the nominal part of the
    array. *)
Definition session_ok (cfg : audio_config) (m : machine) : Prop :=
  machine_wf cfg m
  ∧ 0 < buffer_size (g_playback m) ≤ AUDIO_MAX_BUFFER_SIZE cfg
  ∧ buffer_write_offset (g_playback m) < AUDIO_MAX_BUFFER_SIZE cfg.

(** Transaction sizes for which write offset + size cannot overflow
    [size_t]; sample rates that yield a positive nominal size. *)
Definition transaction_size_ok (cfg : audio_config) (c : call) : Prop :=
  match c with
  | CallReceived _ _ transaction_size _ =>
      0 ≤ transaction_size
      ∧ transaction_size + AUDIO_MAX_BUFFER_SIZE cfg + AUDIO_MAX_PACKET_SIZE cfg
        < 2 ^ SIZE_T_BITS
  | CallSetSampleRate sample_rate_hz =>
      0 < AUDIO_COMMON_GET_BUFFER_SIZE (AUDIO_BUFFER_PACKET_COUNT cfg)
            (size_t_wrap (AUDIO_COMMON_GET_PACKET_SIZE cfg (AUDIO_CHANNEL_COUNT cfg)
                            sample_rate_hz (AUDIO_SAMPLE_SIZE cfg)))
  | _ => True
  end.

(** A configured machine whose write offset lies in the array. *)
Definition within_array (cfg : audio_config) (m : machine) : Prop :=
  machine_wf cfg m
  ∧ 0 < buffer_size (g_playback m)
  ∧ buffer_write_offset (g_playback m) ≤ AUDIO_MAX_BUFFER_SIZE cfg + AUDIO_MAX_PACKET_SIZE cfg.

(** The machine after four of the five packets of [session_48k]. *)
Definition buffering_machine : machine := after config_16bit (take 7 session_48k).

(** The machines after initialisation and the choice of a sample rate. *)
Definition configured_machine_16bit : machine :=
  after config_16bit [CallInit 5 false; CallSetSampleRate 48000].

Definition configured_machine_32bit : machine :=
  after config_32bit [CallInit 5 false; CallSetSampleRate 2000].

(** Two packets, then one that does not fit the array of 48 bytes. *)
Definition oversized_calls : list call :=
  [CallStartStreaming 7; CallReceived 7 1 16 i2s_idle; CallReceived 7 1 12 i2s_idle;
   CallReceived 7 1 20 i2s_idle; CallReceived 7 1 4 i2s_idle].

(** ** The audio event handling in [main.c]

    The body of the event loop of [main]: what it sends to the amplifiers
    for the event flags that [chEvtGetAndClearFlags] returned.  The event
    masks and the volume constants come from headers that are not at hand
    and are parameters; what the audio module reports (streaming, mute
    state and volume of a channel) is an input. *)

Record event_config : Type := {
  AUDIO_EVENT_RESET_VOLUME : Z;
  AUDIO_EVENT_SET_MUTE_STATE : Z;
  AUDIO_EVENT_SET_VOLUME : Z;
  TAS2780_VOLUME_MAX : Z;
  TAS2780_VOLUME_MUTE : Z
}.

Inductive audio_channel : Type :=
| AUDIO_CHANNEL_LEFT
| AUDIO_CHANNEL_RIGHT.

Inductive tas2780_channel : Type :=
| TAS2780_CHANNEL_LEFT
| TAS2780_CHANNEL_RIGHT
| TAS2780_CHANNEL_BOTH.

Record audio_status : Type := {
  audio_is_streaming : bool;
  audio_channel_is_muted : audio_channel → bool;
  audio_channel_get_volume : audio_channel → Z
}.

Inductive amplifier_call : Type :=
| tas2780_set_volume_all (volume : Z) (channel : tas2780_channel).

(** [event_flags & mask] as a C condition. *)
Definition event_flag_set (event_flags mask : Z) : bool :=
  negb (Z.land event_flags mask =? 0).

Definition main_audio_event (ec : event_config) (event_flags : Z) (a : audio_status)
    : list amplifier_call :=
  (if event_flag_set event_flags (AUDIO_EVENT_RESET_VOLUME ec)
   then [tas2780_set_volume_all (TAS2780_VOLUME_MAX ec) TAS2780_CHANNEL_BOTH]
   else [])
  ++ (if (event_flag_set event_flags (AUDIO_EVENT_SET_MUTE_STATE ec)
          || event_flag_set event_flags (AUDIO_EVENT_SET_VOLUME ec))
         && audio_is_streaming a
      then
        [if audio_channel_is_muted a AUDIO_CHANNEL_LEFT
         then tas2780_set_volume_all (TAS2780_VOLUME_MUTE ec) TAS2780_CHANNEL_LEFT
         else tas2780_set_volume_all (audio_channel_get_volume a AUDIO_CHANNEL_LEFT)
                TAS2780_CHANNEL_LEFT;
         if audio_channel_is_muted a AUDIO_CHANNEL_RIGHT
         then tas2780_set_volume_all (TAS2780_VOLUME_MUTE ec) TAS2780_CHANNEL_RIGHT
         else tas2780_set_volume_all (audio_channel_get_volume a AUDIO_CHANNEL_RIGHT)
                TAS2780_CHANNEL_RIGHT]
      else []).

(** Whether a call addresses the amplifier of a channel. *)
Definition addresses (channel : audio_channel) (c : amplifier_call) : bool :=
  match c, channel with
  | tas2780_set_volume_all _ TAS2780_CHANNEL_BOTH, _ => true
  | tas2780_set_volume_all _ TAS2780_CHANNEL_LEFT, AUDIO_CHANNEL_LEFT => true
  | tas2780_set_volume_all _ TAS2780_CHANNEL_RIGHT, AUDIO_CHANNEL_RIGHT => true
  | _, _ => false
  end.

(** The volume the last call for a channel sets, if any call addresses it. *)
Definition last_volume (channel : audio_channel) (calls : list amplifier_call) : option Z :=
  match List.filter (addresses channel) (rev calls) with
  | tas2780_set_volume_all volume _ :: _ => Some volume
  | [] => None
  end.

Definition example_events : event_config :=
  {| AUDIO_EVENT_RESET_VOLUME := 1;
     AUDIO_EVENT_SET_MUTE_STATE := 2;
     AUDIO_EVENT_SET_VOLUME := 4;
     TAS2780_VOLUME_MAX := 0;
     TAS2780_VOLUME_MUTE := 255 |}.

Definition example_status (streaming : bool) : audio_status :=
  {| audio_is_streaming := streaming;
     audio_channel_is_muted := fun channel => match channel with
                                              | AUDIO_CHANNEL_LEFT => true
                                              | AUDIO_CHANNEL_RIGHT => false
                                              end;
     audio_channel_get_volume := fun _ => 40 |}.

(** ** Buffer accesses *)

Lemma bind_Done {A B : Type} (f : A -> outcome B) (a : A) : (Done a ≫= f) = f a.
Proof. reflexivity. Qed.

Lemma bind_Fault {A B : Type} (f : A -> outcome B) (e : fault) : (Fault e ≫= f) = Fault e.
Proof. reflexivity. Qed.

Lemma bind_Done_inv {A B : Type} (f : A -> outcome B) (o : outcome A) (b : B) :
  (o ≫= f) = Done b → ∃ a, o = Done a ∧ f a = Done b.
Proof. destruct o as [a|e]; [eauto | discriminate]. Qed.

Lemma size_t_wrap_small (z : Z) : 0 ≤ z < 2 ^ SIZE_T_BITS → size_t_wrap z = z.
Proof. intros Hz. unfold size_t_wrap. by apply Z.mod_small. Qed.

Lemma size_t_wrap_range (z : Z) : 0 ≤ size_t_wrap z < 2 ^ SIZE_T_BITS.
Proof. unfold size_t_wrap. apply Z.mod_pos_bound. by compute. Qed.

Lemma load8_done (buf : list Z) (i : Z) :
  0 ≤ i < Z.of_nat (length buf) → ∃ b, load8 buf i = Done b.
Proof.
  intros [Hlo Hhi]. unfold load8. rewrite decide_True by done.
  destruct (lookup_lt_is_Some_2 buf (Z.to_nat i)) as [b Hb]; [lia|].
  rewrite Hb. eauto.
Qed.

Lemma store8_done (buf : list Z) (i v : Z) :
  0 ≤ i < Z.of_nat (length buf) →
  ∃ buf', store8 buf i v = Done buf' ∧ length buf' = length buf.
Proof.
  intros Hi. unfold store8. rewrite decide_True by done.
  eexists; split; [done|]. apply length_insert.
Qed.

Lemma store8_inv (buf buf' : list Z) (i v : Z) :
  store8 buf i v = Done buf' → length buf' = length buf.
Proof.
  unfold store8. case_decide; [|discriminate].
  intros [= <-]. apply length_insert.
Qed.

Lemma load32_done (buf : list Z) (p : Z) :
  0 ≤ p → p + 4 ≤ Z.of_nat (length buf) → ∃ w, load32 buf p = Done w.
Proof.
  intros Hlo Hhi. unfold load32.
  destruct (load8_done buf p) as [b0 ->]; [lia|].
  destruct (load8_done buf (p + 1)) as [b1 ->]; [lia|].
  destruct (load8_done buf (p + 2)) as [b2 ->]; [lia|].
  destruct (load8_done buf (p + 3)) as [b3 ->]; [lia|].
  rewrite !bind_Done. eauto.
Qed.

Lemma store32_done (buf : list Z) (p w : Z) :
  0 ≤ p → p + 4 ≤ Z.of_nat (length buf) →
  ∃ buf', store32 buf p w = Done buf' ∧ length buf' = length buf.
Proof.
  intros Hlo Hhi. unfold store32.
  destruct (store8_done buf p w) as (b1 & -> & L1); [lia|].
  rewrite bind_Done.
  destruct (store8_done b1 (p + 1) (Z.shiftr w 8)) as (b2 & -> & L2); [lia|].
  rewrite bind_Done.
  destruct (store8_done b2 (p + 2) (Z.shiftr w 16)) as (b3 & -> & L3); [lia|].
  rewrite bind_Done.
  destruct (store8_done b3 (p + 3) (Z.shiftr w 24)) as (b4 & -> & L4); [lia|].
  exists b4. split; [done | congruence].
Qed.

Lemma swap_sample_words_done (n : nat) :
  ∀ (p : Z) (buf : list Z),
    0 ≤ p → p + 4 * Z.of_nat n ≤ Z.of_nat (length buf) →
    ∃ buf', swap_sample_words n p buf = Done buf' ∧ length buf' = length buf.
Proof.
  induction n as [|n IH]; intros p buf Hlo Hhi.
  - exists buf. done.
  - cbn [swap_sample_words].
    destruct (load32_done buf p) as [w ->]; [lia | lia |].
    rewrite bind_Done.
    destruct (store32_done buf p (SWAP_HALF_WORDS w)) as (b1 & -> & L1); [lia | lia |].
    rewrite bind_Done.
    destruct (IH (p + 4) b1) as (b2 & Hb2 & L2); [lia | lia |].
    exists b2. split; [done | congruence].
Qed.

Lemma memcpy_done (buf : list Z) (dst src n : Z) :
  0 ≤ dst → 0 ≤ src → 0 ≤ n →
  src + n ≤ Z.of_nat (length buf) → dst + n ≤ Z.of_nat (length buf) →
  memcpy buf dst src n
  = Done (take (Z.to_nat dst) buf
          ++ take (Z.to_nat n) (drop (Z.to_nat src) buf)
          ++ drop (Z.to_nat (dst + n)) buf).
Proof. intros. unfold memcpy. by rewrite decide_True. Qed.

Lemma memcpy_length (buf buf' : list Z) (dst src n : Z) :
  memcpy buf dst src n = Done buf' → length buf' = length buf.
Proof.
  unfold memcpy. case_decide as H; [|discriminate].
  intros [= <-]. rewrite !length_app, !length_take, !length_drop. lia.
Qed.

(** The half-words 0x1234, 0x5678 of a sample become 0x5678, 0x1234, as a
    word and in memory. *)
Lemma SWAP_HALF_WORDS_sample : SWAP_HALF_WORDS 0x12345678 = 0x56781234.
Proof. reflexivity. Qed.

Lemma swap_sample_words_sample :
  swap_sample_words 1 0 [0x34; 0x12; 0x78; 0x56] = Done [0x78; 0x56; 0x34; 0x12].
Proof. reflexivity. Qed.

(** ** The write offset update *)

Lemma swap_received_samples_done (cfg : audio_config) (ts : Z) (p : audio_playback) :
  config_wf cfg →
  0 ≤ buffer_write_offset p → 0 ≤ ts →
  buffer_write_offset p + ts ≤ ARRAY_LENGTH (buffer p) →
  ∃ b1, swap_received_samples cfg ts p = Done b1 ∧ length b1 = length (buffer p).
Proof.
  intros Hcfg Hwo Hts Hfit. unfold swap_received_samples, ARRAY_LENGTH in *.
  case_decide as Hres; [|eauto].
  rewrite (cfg_sample_word cfg Hcfg Hres).
  apply swap_sample_words_done; [done|].
  rewrite Z2Nat.id by (apply Z.div_pos; lia).
  pose proof (Z.mul_div_le ts 4). lia.
Qed.

Lemma swap_received_samples_length (cfg : audio_config) (ts : Z) (p : audio_playback) (b1 : list Z) :
  config_wf cfg →
  0 ≤ buffer_write_offset p → 0 ≤ ts →
  buffer_write_offset p + ts ≤ ARRAY_LENGTH (buffer p) →
  swap_received_samples cfg ts p = Done b1 → length b1 = length (buffer p).
Proof.
  intros Hcfg Hwo Hts Hfit Hb1.
  destruct (swap_received_samples_done cfg ts p) as (b & Hb & L); try done.
  congruence.
Qed.

(** Whatever the update does to the buffer, it leaves every other field but
    the write offset alone. *)
Lemma audio_playback_update_write_offset_frame (cfg : audio_config) (ts : Z) (m m' : machine) :
  audio_playback_update_write_offset cfg ts m = Done m' →
  ∃ buf,
    m' = with_playback
           (fun p => set_buffer_write_offset
                       (wrap_unsigned (size_add (buffer_write_offset p) ts) (buffer_size p))
                       (set_buffer buf p)) m.
Proof.
  unfold audio_playback_update_write_offset. case_decide; [|discriminate].
  intros H1. apply bind_Done_inv in H1 as (b1 & _ & H1).
  apply bind_Done_inv in H1 as (b2 & _ & H1).
  injection H1 as <-. by exists b2.
Qed.

Lemma audio_playback_update_write_offset_done (cfg : audio_config) (ts : Z) (m : machine) :
  config_wf cfg → machine_wf cfg m →
  0 ≤ ts →
  buffer_write_offset (g_playback m) + ts < ARRAY_LENGTH (buffer (g_playback m)) →
  let p := g_playback m in
  let new := buffer_write_offset p + ts in
  ∃ b1,
    swap_received_samples cfg ts p = Done b1
    ∧ length b1 = length (buffer p)
    ∧ audio_playback_update_write_offset cfg ts m
      = Done (with_playback
                (fun q => set_buffer_write_offset (wrap_unsigned new (buffer_size p))
                            (set_buffer
                               (if decide (buffer_size p < new)
                                then copy_back b1 (buffer_size p) (new - buffer_size p)
                                else b1) q)) m).
Proof.
  intros Hcfg Hm Hts Hfit p new.
  destruct Hm as [Hlen Hwo Hbs]. fold p in Hlen, Hwo, Hbs, Hfit.
  pose proof (cfg_capacity_size_t cfg Hcfg) as Hcap.
  destruct (swap_received_samples_done cfg ts p) as (b1 & Hb1 & L1); [done..|lia|].
  exists b1. split; [done|]. split; [done|].
  unfold audio_playback_update_write_offset. fold p.
  assert (Hnew : size_add (buffer_write_offset p) ts = new).
  { unfold size_add. apply size_t_wrap_small. unfold new. lia. }
  rewrite Hnew. rewrite decide_True by (unfold new; lia).
  rewrite Hb1, bind_Done.
  destruct (decide (buffer_size p < new)) as [Hex|Hex]; [|done].
  assert (Hexcess : size_sub new (buffer_size p) = new - buffer_size p).
  { unfold size_sub. apply size_t_wrap_small. unfold new in *. lia. }
  rewrite Hexcess.
  rewrite memcpy_done; unfold ARRAY_LENGTH, new in *; try lia.
  rewrite bind_Done. done.
Qed.

Lemma copy_back_length (b1 : list Z) (size excess : Z) :
  0 ≤ size → 0 ≤ excess → size + excess ≤ Z.of_nat (length b1) →
  length (copy_back b1 size excess) = length b1.
Proof.
  intros. unfold copy_back. rewrite length_app, length_take, !length_drop. lia.
Qed.

Lemma copy_back_head (b1 : list Z) (size excess : Z) :
  0 ≤ size → 0 ≤ excess → size + excess ≤ Z.of_nat (length b1) →
  take (Z.to_nat excess) (copy_back b1 size excess)
  = take (Z.to_nat excess) (drop (Z.to_nat size) b1).
Proof.
  intros. unfold copy_back. rewrite take_app_length'; [done|].
  rewrite length_take, length_drop. lia.
Qed.

Lemma copy_back_rest (b1 : list Z) (size excess : Z) :
  0 ≤ size → 0 ≤ excess → size + excess ≤ Z.of_nat (length b1) →
  drop (Z.to_nat excess) (copy_back b1 size excess) = drop (Z.to_nat excess) b1.
Proof.
  intros. unfold copy_back. rewrite drop_app_length'; [done|].
  rewrite length_take, length_drop. lia.
Qed.

(** ** Well-formedness is kept by every call *)

Lemma store32_inv (buf buf' : list Z) (p w : Z) :
  store32 buf p w = Done buf' → length buf' = length buf.
Proof.
  unfold store32. intros H.
  apply bind_Done_inv in H as (b1 & H1 & H).
  apply bind_Done_inv in H as (b2 & H2 & H).
  apply bind_Done_inv in H as (b3 & H3 & H4).
  apply store8_inv in H1, H2, H3, H4. congruence.
Qed.

Lemma swap_sample_words_inv (n : nat) :
  ∀ (p : Z) (buf buf' : list Z),
    swap_sample_words n p buf = Done buf' → length buf' = length buf.
Proof.
  induction n as [|n IH]; intros p buf buf' H; cbn [swap_sample_words] in H.
  - by injection H as <-.
  - apply bind_Done_inv in H as (w & _ & H).
    apply bind_Done_inv in H as (b1 & H1 & H).
    apply store32_inv in H1. apply IH in H. congruence.
Qed.

Lemma audio_playback_update_write_offset_wf (cfg : audio_config) (ts : Z) (m m' : machine) :
  machine_wf cfg m →
  audio_playback_update_write_offset cfg ts m = Done m' →
  machine_wf cfg m'.
Proof.
  intros [Hlen Hwo Hbs] H. unfold audio_playback_update_write_offset in H.
  case_decide; [|discriminate].
  apply bind_Done_inv in H as (b1 & H1 & H).
  apply bind_Done_inv in H as (b2 & H2 & H).
  injection H as <-.
  assert (L1 : length b1 = length (buffer (g_playback m))).
  { unfold swap_received_samples in H1.
    destruct (decide (AUDIO_RESOLUTION_BIT cfg = 32)).
    - by apply swap_sample_words_inv in H1.
    - by injection H1 as <-. }
  assert (L2 : length b2 = length b1).
  { destruct (decide (buffer_size (g_playback m)
                      < size_add (buffer_write_offset (g_playback m)) ts)).
    - by apply memcpy_length in H2.
    - by injection H2 as <-. }
  split; cbn.
  - unfold ARRAY_LENGTH in *. by rewrite L2, L1.
  - unfold wrap_unsigned.
    pose proof (size_t_wrap_range (buffer_write_offset (g_playback m) + ts)) as Hr.
    apply Z_mod_nonneg_nonneg; [apply Hr | exact Hbs].
  - exact Hbs.
Qed.

Lemma audio_playback_stop_wf (cfg : audio_config) (m : machine) :
  machine_wf cfg m → machine_wf cfg (audio_playback_stop m).
Proof.
  intros [Hlen Hwo Hbs]. unfold audio_playback_stop.
  destruct (negb (audio_playback_is_enabled m)); split; cbn; done.
Qed.

Lemma audio_playback_start_wf (cfg : audio_config) (m : machine) :
  machine_wf cfg m → machine_wf cfg (audio_playback_start m).
Proof.
  intros [Hlen Hwo Hbs]. unfold audio_playback_start.
  destruct (audio_playback_is_enabled m); [done|].
  case_decide; split; cbn; done.
Qed.

Lemma step_wf (cfg : audio_config) (c : call) (m m' : machine) :
  machine_wf cfg m → step cfg c m = Done m' → machine_wf cfg m'.
Proof.
  intros Hm Hstep.
  destruct c as [mb b|r|u|u|u ep ts i2s]; cbn [step] in Hstep.
  - injection Hstep as <-. destruct Hm as [Hlen Hwo Hbs]. split; cbn; done.
  - injection Hstep as <-. destruct Hm as [Hlen Hwo Hbs]. split; cbn; try done.
    apply size_t_wrap_range.
  - injection Hstep as <-. destruct Hm as [Hlen Hwo Hbs].
    unfold audio_playback_start_streaming.
    destruct (b_streaming_enabled (g_playback m)); split; cbn; done.
  - injection Hstep as <-. unfold audio_playback_stop_streaming.
    destruct (negb (b_streaming_enabled (g_playback m))); [done|].
    apply audio_playback_stop_wf. destruct Hm as [Hlen Hwo Hbs]. split; cbn; done.
  - unfold audio_playback_received_cb in Hstep.
    destruct (negb (b_streaming_enabled (g_playback m))); [by injection Hstep as <-|].
    apply bind_Done_inv in Hstep as (m1 & H1 & Hstep). injection Hstep as <-.
    assert (Hm1 : machine_wf cfg m1).
    { destruct (decide (ts = 0)).
      - injection H1 as <-. by apply audio_playback_stop_wf.
      - apply bind_Done_inv in H1 as (m2 & H2 & H1). injection H1 as <-.
        apply audio_playback_start_wf.
        apply audio_playback_update_write_offset_wf in H2; [|done].
        destruct H2 as [Hlen Hwo Hbs].
        unfold audio_playback_update_read_offset. case_decide; split; cbn; done. }
    destruct Hm1 as [Hlen Hwo Hbs]. split; cbn; done.
Qed.

Lemma run_wf (cfg : audio_config) (cs : list call) :
  ∀ m m', machine_wf cfg m → run cfg cs m = Done m' → machine_wf cfg m'.
Proof.
  induction cs as [|c cs IH]; intros m m' Hm Hrun; cbn [run] in Hrun.
  - by injection Hrun as <-.
  - apply bind_Done_inv in Hrun as (m1 & Hstep & Hrun).
    eapply IH; [|done]. by eapply step_wf.
Qed.

Lemma initial_machine_wf (cfg : audio_config) : config_wf cfg → machine_wf cfg (initial_machine cfg).
Proof.
  intros [Hb Hp _ _]. split; cbn; [|done..].
  unfold ARRAY_LENGTH. rewrite length_replicate. lia.
Qed.

(** Every machine a sequence of calls leads to from program start is
    well-formed. *)
Lemma run_initial_wf (cfg : audio_config) (cs : list call) (m : machine) :
  config_wf cfg → run cfg cs (initial_machine cfg) = Done m → machine_wf cfg m.
Proof.
  intros Hcfg Hrun. eapply run_wf; [|exact Hrun]. by apply initial_machine_wf.
Qed.

(** A packet that passes the check against the array length is handled to
    the end. *)
Lemma audio_playback_received_cb_done (cfg : audio_config) (usbp ep ts : Z) (i2s : I2SDriver)
    (m : machine) :
  config_wf cfg → machine_wf cfg m → 0 ≤ ts →
  buffer_write_offset (g_playback m) + ts < ARRAY_LENGTH (buffer (g_playback m)) →
  ∃ m', audio_playback_received_cb cfg usbp ep ts i2s m = Done m'.
Proof.
  intros Hcfg Hm Hts Hfit. unfold audio_playback_received_cb.
  destruct (negb (b_streaming_enabled (g_playback m))); [eauto|].
  case_decide; [rewrite bind_Done; eauto|].
  destruct (audio_playback_update_write_offset_done cfg ts m Hcfg Hm Hts Hfit)
    as (b1 & _ & _ & ->).
  rewrite !bind_Done. eauto.
Qed.

(** ** The mode flags *)

Lemma events_since_app (m m' : machine) (new : list io_event) :
  io_log m' = io_log m ++ new → events_since m m' = new.
Proof. intros H. unfold events_since. rewrite H. apply drop_app_length. Qed.

Lemma audio_playback_stop_flags (m : machine) :
  b_playback_enabled (g_playback (audio_playback_stop m)) = false
  ∧ b_streaming_enabled (g_playback (audio_playback_stop m)) = b_streaming_enabled (g_playback m).
Proof.
  unfold audio_playback_stop, audio_playback_is_enabled.
  destruct (b_playback_enabled (g_playback m)) eqn:E; cbn; auto.
Qed.

Lemma audio_playback_start_flags (m : machine) :
  b_playback_enabled (g_playback m) = true →
  audio_playback_start m = m.
Proof. intros H. unfold audio_playback_start, audio_playback_is_enabled. by rewrite H. Qed.

Lemma audio_playback_start_streaming_flag (m : machine) :
  b_streaming_enabled (g_playback (audio_playback_start m)) = b_streaming_enabled (g_playback m).
Proof.
  unfold audio_playback_start.
  destruct (audio_playback_is_enabled m); [done|]. by case_decide.
Qed.

(** A received packet of non-zero size, while streaming: the four updates
    in sequence, then reception is armed again. *)
Lemma audio_playback_received_cb_packet (cfg : audio_config) (usbp ep ts : Z) (i2s : I2SDriver)
    (m : machine) :
  b_streaming_enabled (g_playback m) = true → ts ≠ 0 →
  audio_playback_received_cb cfg usbp ep ts i2s m
  = (m1 ← audio_playback_update_write_offset cfg ts m;
     let m2 := audio_playback_start
                 (audio_playback_update_fill_size
                    (audio_playback_update_read_offset cfg i2s m1)) in
     Done (emit (usbStartReceiveI usbp ep (buffer_write_offset (g_playback m2))
                   (AUDIO_MAX_PACKET_SIZE cfg)) m2)).
Proof.
  intros Hs Hts. unfold audio_playback_received_cb. rewrite Hs. cbn [negb].
  rewrite decide_False by done.
  destruct (audio_playback_update_write_offset cfg ts m); reflexivity.
Qed.

Lemma audio_playback_update_read_offset_flags (cfg : audio_config) (i2s : I2SDriver) (m : machine) :
  b_playback_enabled (g_playback (audio_playback_update_read_offset cfg i2s m))
  = b_playback_enabled (g_playback m)
  ∧ b_streaming_enabled (g_playback (audio_playback_update_read_offset cfg i2s m))
    = b_streaming_enabled (g_playback m).
Proof. unfold audio_playback_update_read_offset. by case_decide. Qed.

(** The flags after the callback, in terms of the flags before. *)
Lemma received_cb_flags (cfg : audio_config) (usbp ep ts : Z) (i2s : I2SDriver) (m m' : machine) :
  audio_playback_received_cb cfg usbp ep ts i2s m = Done m' →
  b_streaming_enabled (g_playback m') = b_streaming_enabled (g_playback m)
  ∧ (b_streaming_enabled (g_playback m) = false → m' = m)
  ∧ (b_streaming_enabled (g_playback m) = true → ts = 0 →
     b_playback_enabled (g_playback m') = false)
  ∧ (b_playback_enabled (g_playback m) = true → b_streaming_enabled (g_playback m) = true →
     ts ≠ 0 → b_playback_enabled (g_playback m') = true).
Proof.
  intros Hrun.
  destruct (b_streaming_enabled (g_playback m)) eqn:Hs.
  - destruct (decide (ts = 0)) as [->|Hts].
    + unfold audio_playback_received_cb in Hrun. rewrite Hs in Hrun. cbn in Hrun.
      injection Hrun as <-. cbn.
      destruct (audio_playback_stop_flags m) as [Hp Hs'].
      rewrite Hp, Hs', Hs. repeat split; done.
    + rewrite audio_playback_received_cb_packet in Hrun by done.
      apply bind_Done_inv in Hrun as (m1 & Hm1 & Hrun).
      apply audio_playback_update_write_offset_frame in Hm1 as [buf ->].
      injection Hrun as <-.
      destruct (audio_playback_update_read_offset_flags cfg i2s
                  (with_playback
                     (λ p, set_buffer_write_offset
                             (wrap_unsigned (size_add (buffer_write_offset p) ts) (buffer_size p))
                             (set_buffer buf p)) m)) as [Hp1 Hs1].
      cbn in Hp1, Hs1.
      repeat split; try done.
      * cbn. rewrite audio_playback_start_streaming_flag. cbn.
        by rewrite Hs1.
      * intros Hp _ _. cbn. rewrite audio_playback_start_flags; cbn; by rewrite Hp1.
  - unfold audio_playback_received_cb in Hrun. rewrite Hs in Hrun. cbn in Hrun.
    injection Hrun as <-. rewrite Hs. repeat split; done.
Qed.

Lemma received_cb_playback_streaming (cfg : audio_config) (usbp ep ts : Z) (i2s : I2SDriver)
    (m m' : machine) :
  audio_playback_received_cb cfg usbp ep ts i2s m = Done m' →
  playback_implies_streaming m → playback_implies_streaming m'.
Proof.
  intros Hrun Hinv. destruct (received_cb_flags _ _ _ _ _ _ _ Hrun) as (Hs & Hoff & _ & _).
  unfold playback_implies_streaming in *. rewrite Hs.
  destruct (b_streaming_enabled (g_playback m)) eqn:E; [done|].
  rewrite (Hoff eq_refl). done.
Qed.

Lemma step_playback_streaming (cfg : audio_config) (c : call) (m m' : machine) :
  step cfg c m = Done m' →
  playback_implies_streaming m → playback_implies_streaming m'.
Proof.
  destruct c as [mb b|r|u|u|u ep ts i2s]; cbn [step]; intros Hstep Hinv.
  - injection Hstep as <-. unfold playback_implies_streaming. cbn. done.
  - injection Hstep as <-. exact Hinv.
  - injection Hstep as <-. unfold playback_implies_streaming, audio_playback_start_streaming in *.
    destruct (b_streaming_enabled (g_playback m)) eqn:E; cbn; [by rewrite E | done].
  - injection Hstep as <-. unfold playback_implies_streaming, audio_playback_stop_streaming in *.
    destruct (b_streaming_enabled (g_playback m)) eqn:E; cbn [negb]; [|by rewrite E].
    destruct (audio_playback_stop_flags (with_playback (set_b_streaming_enabled false) m))
      as [Hp _].
    rewrite Hp. done.
  - by eapply received_cb_playback_streaming.
Qed.

Lemma run_playback_streaming (cfg : audio_config) (cs : list call) :
  ∀ m m', run cfg cs m = Done m' →
          playback_implies_streaming m → playback_implies_streaming m'.
Proof.
  induction cs as [|c cs IH]; intros m m' Hrun Hinv; cbn [run] in Hrun.
  - by injection Hrun as <-.
  - apply bind_Done_inv in Hrun as (m1 & Hstep & Hrun).
    eapply IH; [done|]. by eapply step_playback_streaming.
Qed.

(** ** Properties of the state machine *)

(** C10: a packet-received callback while streaming is disabled returns at
    once: the whole machine (offsets, fill sizes, flags, buffer contents,
    mailbox pointer) is as before and nothing is posted or armed, for any
    transaction size, zero included. *)
Theorem received_cb_disregarded_when_not_streaming
    (cfg : audio_config) (usbp ep transaction_size : Z) (i2s : I2SDriver) (m : machine) :
  b_streaming_enabled (g_playback m) = false →
  audio_playback_received_cb cfg usbp ep transaction_size i2s m = Done m.
Proof.
  intros Hs. unfold audio_playback_received_cb. by rewrite Hs.
Qed.

Lemma received_cb_disregarded_when_not_streaming_witness :
  audio_playback_received_cb config_16bit 7 1 0 (i2s_running 40)
    (after config_16bit [CallInit 5 false; CallSetSampleRate 48000])
  = Done (after config_16bit [CallInit 5 false; CallSetSampleRate 48000]).
Proof.
  apply (received_cb_disregarded_when_not_streaming config_16bit 7 1 0 (i2s_running 40)).
  reflexivity.
Defined.

(** C7: [audio_playback_start_streaming] on a machine that is streaming
    returns the machine as it is: no reset of the offsets, the fill size or
    the playback flag, and no USB call.  After a first call streaming is
    enabled, so a second call right after it changes nothing.
    [audio_playback_stop_streaming] while streaming is disabled changes
    nothing and posts nothing. *)
Theorem start_streaming_twice_stop_streaming_idle
    (cfg : audio_config) (usbp usbp' : Z) (m : machine) :
  audio_playback_start_streaming cfg usbp'
    (audio_playback_start_streaming cfg usbp m)
  = audio_playback_start_streaming cfg usbp m
  ∧ (b_streaming_enabled (g_playback m) = false →
     audio_playback_stop_streaming usbp m = m)
  ∧ (b_streaming_enabled (g_playback m) = true →
     audio_playback_start_streaming cfg usbp m = m)
  ∧ b_streaming_enabled (g_playback (audio_playback_start_streaming cfg usbp m)) = true.
Proof.
  assert (Hon : b_streaming_enabled
                  (g_playback (audio_playback_start_streaming cfg usbp m)) = true).
  { unfold audio_playback_start_streaming.
    by destruct (b_streaming_enabled (g_playback m)) eqn:E. }
  split; [|split; [|split]].
  - unfold audio_playback_start_streaming at 1. by rewrite Hon.
  - intros Hs. unfold audio_playback_stop_streaming. by rewrite Hs.
  - intros Hs. unfold audio_playback_start_streaming. by rewrite Hs.
  - exact Hon.
Qed.

Lemma start_streaming_twice_stop_streaming_idle_witness :
  audio_playback_start_streaming config_16bit 8
    (audio_playback_start_streaming config_16bit 7 buffering_machine)
  = audio_playback_start_streaming config_16bit 7 buffering_machine
  ∧ audio_playback_start_streaming config_16bit 7 buffering_machine = buffering_machine
  ∧ buffer_write_offset
      (g_playback (audio_playback_start_streaming config_16bit 7 buffering_machine)) = 768
  ∧ audio_playback_stop_streaming 7 (audio_playback_stop_streaming 8 buffering_machine)
    = audio_playback_stop_streaming 8 buffering_machine.
Proof.
  destruct (start_streaming_twice_stop_streaming_idle config_16bit 7 8 buffering_machine)
    as (Htwice & _ & Hkeep & _).
  destruct (start_streaming_twice_stop_streaming_idle config_16bit 7 8
              (audio_playback_stop_streaming 8 buffering_machine))
    as (_ & Hstop & _ & _).
  assert (Hs : b_streaming_enabled (g_playback buffering_machine) = true)
    by (vm_compute; reflexivity).
  split; [exact Htwice|]. split; [exact (Hkeep Hs)|]. split.
  - transitivity (buffer_write_offset (g_playback buffering_machine)).
    + exact (f_equal (fun x => buffer_write_offset (g_playback x)) (Hkeep Hs)).
    + vm_compute. reflexivity.
  - apply Hstop. vm_compute. reflexivity.
Defined.

(** C8: after [audio_playback_stop_streaming] followed by
    [audio_playback_start_streaming] the write offset, the read offset and
    the fill size are 0 and playback is disabled (and streaming enabled),
    whatever the machine held before. *)
Theorem stop_then_start_streaming_resets
    (cfg : audio_config) (usbp usbp' : Z) (m : machine) :
  let m' := audio_playback_start_streaming cfg usbp' (audio_playback_stop_streaming usbp m) in
  buffer_write_offset (g_playback m') = 0
  ∧ buffer_read_offset (g_playback m') = 0
  ∧ buffer_fill_size (g_playback m') = 0
  ∧ b_playback_enabled (g_playback m') = false
  ∧ b_streaming_enabled (g_playback m') = true.
Proof.
  cbn zeta.
  assert (Hidle : b_streaming_enabled (g_playback (audio_playback_stop_streaming usbp m)) = false).
  { unfold audio_playback_stop_streaming.
    destruct (b_streaming_enabled (g_playback m)) eqn:E; cbn [negb]; [|done].
    by rewrite (proj2 (audio_playback_stop_flags _)). }
  unfold audio_playback_start_streaming. rewrite Hidle. cbn. done.
Qed.

(** C9: in every machine that a sequence of calls to init, set_sample_rate,
    start_streaming, stop_streaming and the packet-received callback leads
    to from program start, playback is not enabled while streaming is
    disabled. *)
Theorem playback_never_without_streaming
    (cfg : audio_config) (cs : list call) (m : machine) :
  run cfg cs (initial_machine cfg) = Done m →
  ¬ (b_playback_enabled (g_playback m) = true ∧ b_streaming_enabled (g_playback m) = false).
Proof.
  intros Hrun [Hp Hs].
  assert (Hinv : playback_implies_streaming m).
  { eapply run_playback_streaming; [exact Hrun|]. intros H. discriminate H. }
  rewrite (Hinv Hp) in Hs. discriminate.
Qed.

Lemma playback_never_without_streaming_witness :
  ¬ (b_playback_enabled (g_playback playing_machine) = true
     ∧ b_streaming_enabled (g_playback playing_machine) = false).
Proof.
  apply (playback_never_without_streaming config_16bit session_48k playing_machine).
  vm_compute. reflexivity.
Defined.

(** C1, counterexample: the callback does not turn streaming off; on
    [playing_machine] a failed transaction leaves [b_streaming_enabled] set. *)
Lemma failed_transaction_stops_streaming_counterexample :
  ¬ failed_transaction_stops_streaming config_16bit 7 1 i2s_idle playing_machine.
Proof.
  intros H. destruct H as (m' & Hrun & _ & Hs & _); [reflexivity | reflexivity |].
  assert (Hs' : b_streaming_enabled (g_playback m') = true).
  { apply received_cb_flags in Hrun as (-> & _). reflexivity. }
  congruence.
Qed.

(** C1 (amended): a packet-received event with transaction size 0 while
    playback and streaming are enabled disables playback, resets the
    offsets and the fill size, posts exactly one stop message and arms
    reception again at offset 0; streaming stays enabled. *)
Theorem failed_transaction_stops_playback
    (cfg : audio_config) (usbp ep : Z) (i2s : I2SDriver) (m : machine) :
  b_playback_enabled (g_playback m) = true →
  b_streaming_enabled (g_playback m) = true →
  ∃ m', audio_playback_received_cb cfg usbp ep 0 i2s m = Done m'
        ∧ b_playback_enabled (g_playback m') = false
        ∧ b_streaming_enabled (g_playback m') = true
        ∧ buffer_write_offset (g_playback m') = 0
        ∧ buffer_read_offset (g_playback m') = 0
        ∧ buffer_fill_size (g_playback m') = 0
        ∧ events_since m m'
          = [chMBPostI (gp_mailbox m) AUDIO_COMMON_MSG_STOP_PLAYBACK;
             usbStartReceiveI usbp ep 0 (AUDIO_MAX_PACKET_SIZE cfg)]
        ∧ posted AUDIO_COMMON_MSG_STOP_PLAYBACK (events_since m m') = 1%nat.
Proof.
  intros Hp Hs. eexists. split.
  - unfold audio_playback_received_cb. rewrite Hs. cbn [negb].
    rewrite decide_True by done. rewrite bind_Done. reflexivity.
  - unfold audio_playback_stop, audio_playback_is_enabled. rewrite Hp. cbn.
    rewrite Hs.
    assert (Hev : events_since m
                    {| g_playback := g_playback m; gp_mailbox := gp_mailbox m;
                       io_log := (io_log m ++ [chMBPostI (gp_mailbox m) AUDIO_COMMON_MSG_STOP_PLAYBACK])
                                 ++ [usbStartReceiveI usbp ep 0 (AUDIO_MAX_PACKET_SIZE cfg)] |}
                  = [chMBPostI (gp_mailbox m) AUDIO_COMMON_MSG_STOP_PLAYBACK;
                     usbStartReceiveI usbp ep 0 (AUDIO_MAX_PACKET_SIZE cfg)]).
    { apply events_since_app. cbn. by rewrite <- app_assoc. }
    unfold events_since in *. cbn in *. rewrite Hev. repeat split; done.
Qed.

Lemma failed_transaction_stops_playback_witness :
  ∃ m', audio_playback_received_cb config_16bit 7 1 0 i2s_idle playing_machine = Done m'
        ∧ b_playback_enabled (g_playback m') = false
        ∧ b_streaming_enabled (g_playback m') = true
        ∧ posted AUDIO_COMMON_MSG_STOP_PLAYBACK (events_since playing_machine m') = 1%nat.
Proof.
  destruct (failed_transaction_stops_playback config_16bit 7 1 i2s_idle playing_machine)
    as (m' & Hrun & Hp & Hs & _ & _ & _ & _ & Hposted); [reflexivity | reflexivity |].
  exists m'. repeat split; assumption.
Defined.

Lemma step_in_session_latch (cfg : audio_config) (c : call) (m m' : machine) :
  b_playback_enabled (g_playback m) = true →
  b_streaming_enabled (g_playback m) = true →
  in_session c → step cfg c m = Done m' →
  b_playback_enabled (g_playback m') = true ∧ b_streaming_enabled (g_playback m') = true.
Proof.
  intros Hp Hs Hc Hstep.
  destruct c as [mb b|r|u|u|u ep ts i2s]; cbn in Hc; try done; cbn [step] in Hstep.
  - injection Hstep as <-. done.
  - injection Hstep as <-. unfold audio_playback_start_streaming. by rewrite Hs.
  - destruct (received_cb_flags _ _ _ _ _ _ _ Hstep) as (Hs' & _ & _ & Hp').
    split; [by apply Hp' | by rewrite Hs'].
Qed.

(** C2: once playback is enabled in a streaming session it stays enabled
    under every further packet of non-zero size (also a change of the sample
    rate or a repeated start), whatever the fill size; a call that completes
    with playback disabled is a stop or a failed (zero size) transaction.
    A packet of non-zero size that fits the array is handled to the end, and
    playback is enabled afterwards. *)
Theorem playback_latch (cfg : audio_config) (m : machine) :
  b_playback_enabled (g_playback m) = true →
  b_streaming_enabled (g_playback m) = true →
  (∀ (cs : list call) (m' : machine),
      Forall in_session cs → run cfg cs m = Done m' →
      b_playback_enabled (g_playback m') = true
      ∧ b_streaming_enabled (g_playback m') = true)
  ∧ (∀ (c : call) (m' : machine),
        step cfg c m = Done m' →
        b_playback_enabled (g_playback m') = false → ends_playback c)
  ∧ (config_wf cfg → machine_wf cfg m →
     ∀ (usbp ep ts : Z) (i2s : I2SDriver),
       0 < ts →
       buffer_write_offset (g_playback m) + ts < ARRAY_LENGTH (buffer (g_playback m)) →
       ∃ m', audio_playback_received_cb cfg usbp ep ts i2s m = Done m'
             ∧ b_playback_enabled (g_playback m') = true).
Proof.
  intros Hp Hs. split; [|split].
  3: {
    intros Hcfg Hm usbp ep ts i2s Hts Hfit.
    destruct (audio_playback_received_cb_done cfg usbp ep ts i2s m Hcfg Hm ltac:(lia) Hfit)
      as [m' Hrun].
    exists m'. split; [exact Hrun|].
    destruct (received_cb_flags _ _ _ _ _ _ _ Hrun) as (_ & _ & _ & Hp').
    apply Hp'; [done | done | lia]. }
  - intros cs. revert m Hp Hs.
    induction cs as [|c cs IH]; intros m Hp Hs m' Hcs Hrun; cbn [run] in Hrun.
    + by injection Hrun as <-.
    + apply bind_Done_inv in Hrun as (m1 & Hstep & Hrun).
      inversion Hcs as [|? ? Hc Hcs']; subst.
      destruct (step_in_session_latch cfg c m m1 Hp Hs Hc Hstep) as [Hp1 Hs1].
      by apply (IH m1 Hp1 Hs1 m').
  - intros c m' Hstep Hoff.
    destruct c as [mb b|r|u|u|u ep ts i2s]; cbn; try done.
    + cbn [step] in Hstep. injection Hstep as <-. cbn in Hoff. congruence.
    + cbn [step] in Hstep. injection Hstep as <-.
      unfold audio_playback_start_streaming in Hoff. rewrite Hs in Hoff. congruence.
    + destruct (decide (ts = 0)) as [|Hts]; [done|].
      cbn [step] in Hstep.
      destruct (received_cb_flags _ _ _ _ _ _ _ Hstep) as (_ & _ & _ & Hp').
      rewrite (Hp' Hp Hs Hts) in Hoff. discriminate.
Qed.

Lemma playback_latch_witness :
  buffer_fill_size (g_playback (after config_16bit (session_48k ++ draining_packets))) = 64
  ∧ b_playback_enabled (g_playback (after config_16bit (session_48k ++ draining_packets))) = true
  ∧ ends_playback (CallReceived 7 1 0 i2s_idle).
Proof.
  destruct (playback_latch config_16bit playing_machine) as (Hlatch & Hends & _);
    [reflexivity | reflexivity |].
  split; [vm_compute; reflexivity|]. split.
  - refine (proj1 (Hlatch draining_packets _ _ _)).
    + constructor; [intros H; discriminate H|].
      constructor; [intros H; discriminate H|].
      constructor.
    + vm_compute. reflexivity.
  - apply (Hends (CallReceived 7 1 0 i2s_idle)
             (after config_16bit (session_48k ++ [CallReceived 7 1 0 i2s_idle]))).
    + vm_compute. reflexivity.
    + vm_compute. reflexivity.
Defined.

(** C6: with both offsets in [0, buffer_size) the fill size that
    [audio_playback_update_fill_size] stores lies in [0, buffer_size); for
    equal offsets it is 0. *)
Theorem fill_size_bound (m : machine) :
  let p := g_playback m in
  0 ≤ buffer_read_offset p < buffer_size p →
  0 ≤ buffer_write_offset p < buffer_size p →
  let p' := g_playback (audio_playback_update_fill_size m) in
  0 ≤ buffer_fill_size p' < buffer_size p
  ∧ buffer_size p' = buffer_size p
  ∧ (buffer_write_offset p = buffer_read_offset p → buffer_fill_size p' = 0).
Proof.
  intros p Hr Hw p'. subst p'. cbn. fold p. unfold subtract_circular_unsigned.
  split; [apply Z.mod_pos_bound; lia|]. split; [done|].
  intros ->. by rewrite Z.sub_diag, Z.mod_0_l by lia.
Qed.

Lemma fill_size_bound_witness :
  0 ≤ buffer_fill_size (g_playback (audio_playback_update_fill_size machine_at_1500)) < 1536.
Proof.
  destruct (fill_size_bound machine_at_1500) as (Hrange & _ & _).
  - vm_compute. split; [discriminate | reflexivity].
  - vm_compute. split; [discriminate | reflexivity].
  - exact Hrange.
Defined.

(** ** The write path *)

Lemma config_16bit_wf : config_wf config_16bit.
Proof. split; cbn; [lia | lia | reflexivity | intros H; discriminate H]. Qed.

Lemma config_32bit_wf : config_wf config_32bit.
Proof. split; cbn; [lia | lia | reflexivity | intros _; reflexivity]. Qed.

(** C4: for a write with write offset + transaction size below the length of
    the array, if the new offset exceeds [buffer_size] then the excess bytes
    (new offset - [buffer_size]) that lie behind the nominal end are copied
    to the start of the buffer, the bytes after them are left as they are,
    and the write offset becomes the new offset modulo [buffer_size].  The
    bytes are taken from [b1], the buffer after the sample words of the
    packet have been swapped (the buffer itself unless samples have 32 bit).
    For write offset 1500, buffer size 1536 and transaction size 192 the
    excess is 156 and the write offset becomes 156. *)
Theorem write_offset_wrap_around (cfg : audio_config) (ts : Z) (m : machine) :
  config_wf cfg → machine_wf cfg m → 0 ≤ ts →
  let p := g_playback m in
  let new := buffer_write_offset p + ts in
  new < ARRAY_LENGTH (buffer p) →
  0 < buffer_size p < new →
  let excess := new - buffer_size p in
  ∃ b1 m',
    swap_received_samples cfg ts p = Done b1
    ∧ (AUDIO_RESOLUTION_BIT cfg ≠ 32 → b1 = buffer p)
    ∧ audio_playback_update_write_offset cfg ts m = Done m'
    ∧ length (buffer (g_playback m')) = length (buffer p)
    ∧ take (Z.to_nat excess) (buffer (g_playback m'))
      = take (Z.to_nat excess) (drop (Z.to_nat (buffer_size p)) b1)
    ∧ length (take (Z.to_nat excess) (buffer (g_playback m'))) = Z.to_nat excess
    ∧ drop (Z.to_nat excess) (buffer (g_playback m')) = drop (Z.to_nat excess) b1
    ∧ buffer_write_offset (g_playback m') = new mod buffer_size p
    ∧ (buffer_write_offset p = 1500 → buffer_size p = 1536 → ts = 192 →
       excess = 156 ∧ buffer_write_offset (g_playback m') = 156).
Proof.
  intros Hcfg Hm Hts p new Hfit Hwrap excess.
  destruct (audio_playback_update_write_offset_done cfg ts m Hcfg Hm Hts Hfit)
    as (b1 & Hb1 & L1 & Hrun).
  fold p new in Hb1, L1, Hrun.
  rewrite decide_True in Hrun by lia. fold excess in Hrun.
  assert (Hrange : buffer_size p + excess ≤ Z.of_nat (length b1)).
  { rewrite L1. unfold ARRAY_LENGTH, excess in *. lia. }
  exists b1. eexists. split; [exact Hb1|]. split.
  { intros Hres. unfold swap_received_samples in Hb1.
    rewrite decide_False in Hb1 by done. by injection Hb1 as <-. }
  split; [exact Hrun|]. cbn.
  split; [rewrite copy_back_length; unfold excess; lia|].
  split; [apply copy_back_head; unfold excess; lia|].
  split.
  { rewrite length_take, copy_back_length by (unfold excess; lia). unfold excess in *. lia. }
  split; [apply copy_back_rest; unfold excess; lia|].
  split; [reflexivity|].
  intros Hwo Hbs ->. unfold wrap_unsigned, excess, new. rewrite Hwo, Hbs. split; reflexivity.
Qed.

Lemma write_offset_wrap_around_witness :
  ∃ m', audio_playback_update_write_offset config_16bit 192 machine_at_1500 = Done m'
        ∧ take 156 (buffer (g_playback m'))
          = take 156 (drop 1536 (buffer (g_playback machine_at_1500)))
        ∧ buffer_write_offset (g_playback m') = 156.
Proof.
  destruct (write_offset_wrap_around config_16bit 192 machine_at_1500)
    as (b1 & m' & _ & Hb1 & Hrun & _ & Hhead & _ & _ & _ & Hscenario).
  - split; cbn; [lia | lia | reflexivity | intros H; discriminate H].
  - split; vm_compute; [reflexivity | discriminate | discriminate].
  - lia.
  - vm_compute. reflexivity.
  - vm_compute. split; reflexivity.
  - exists m'. split; [exact Hrun|]. split.
    + pose proof (Hb1 ltac:(cbn; discriminate)) as E. subst b1. exact Hhead.
    + destruct Hscenario as [_ Hwo]; [vm_compute; reflexivity ..|]. exact Hwo.
Defined.

(** C5, counterexample: at 48 kHz in an array sized for 96 kHz the nominal
    size is 1536 and the array holds 3456 bytes; a transaction of 500 bytes
    at write offset 1500 exceeds 1536 + 384 and is accepted. *)
Lemma write_checked_against_nominal_capacity_counterexample :
  ¬ write_checked_against_nominal_capacity config_16bit 500 machine_at_1500.
Proof.
  intros [Hassert _].
  assert (Hviolated : ¬ buffer_write_offset (g_playback machine_at_1500) + 500
                        < buffer_size (g_playback machine_at_1500)
                          + AUDIO_MAX_PACKET_SIZE config_16bit).
  { vm_compute. intros H. discriminate H. }
  specialize (Hassert Hviolated).
  destruct (audio_playback_update_write_offset_done config_16bit 500 machine_at_1500)
    as (b1 & _ & _ & Hrun).
  - exact config_16bit_wf.
  - split; vm_compute; [reflexivity | discriminate | discriminate].
  - lia.
  - vm_compute. reflexivity.
  - pose proof (eq_trans (eq_sym Hrun) Hassert) as H. discriminate H.
Qed.

(** C5 (amended): the capacity is the length of the buffer array,
    [AUDIO_MAX_BUFFER_SIZE + AUDIO_MAX_PACKET_SIZE].  When the new write
    offset, as the code computes it in [size_t], is not below the capacity,
    the update fails its assertion (so it does whenever write offset +
    transaction size is not below the capacity and fits [size_t]).  When
    write offset + transaction size is below the capacity, the update
    completes: no access of the word swap or of the copy of the tail leaves
    the array, whose length stays the same. *)
Theorem write_offset_assertion_and_bounds (cfg : audio_config) (ts : Z) (m : machine) :
  config_wf cfg → machine_wf cfg m → 0 ≤ ts →
  let p := g_playback m in
  let capacity := ARRAY_LENGTH (buffer p) in
  capacity = AUDIO_MAX_BUFFER_SIZE cfg + AUDIO_MAX_PACKET_SIZE cfg
  ∧ (¬ size_add (buffer_write_offset p) ts < capacity →
     audio_playback_update_write_offset cfg ts m = Fault AssertFailed)
  ∧ (buffer_write_offset p + ts < 2 ^ SIZE_T_BITS →
     ¬ buffer_write_offset p + ts < capacity →
     audio_playback_update_write_offset cfg ts m = Fault AssertFailed)
  ∧ (buffer_write_offset p + ts < capacity →
     ∃ m', audio_playback_update_write_offset cfg ts m = Done m'
           ∧ ARRAY_LENGTH (buffer (g_playback m')) = capacity).
Proof.
  intros Hcfg Hm Hts p capacity.
  assert (Hassert : ¬ size_add (buffer_write_offset p) ts < capacity →
                    audio_playback_update_write_offset cfg ts m = Fault AssertFailed).
  { intros Hge. unfold audio_playback_update_write_offset. fold p.
    by rewrite decide_False. }
  split; [apply (wf_buffer_length cfg m Hm)|].
  split; [exact Hassert|]. split.
  - intros Hfits Hge. apply Hassert.
    unfold size_add. rewrite size_t_wrap_small; [done|].
    pose proof (wf_write_offset cfg m Hm) as Hwo. fold p in Hwo. lia.
  - intros Hfit.
    destruct (audio_playback_update_write_offset_done cfg ts m Hcfg Hm Hts Hfit)
      as (b1 & Hb1 & L1 & Hrun).
    eexists. split; [exact Hrun|].
    pose proof (wf_write_offset cfg m Hm) as Hwo.
    pose proof (wf_buffer_size cfg m Hm) as Hbs. fold p in Hwo, Hbs.
    unfold capacity, ARRAY_LENGTH in *.
    cbn [with_playback g_playback buffer set_buffer set_buffer_write_offset]. fold p.
    fold p in Hfit, L1.
    destruct (decide (buffer_size p < buffer_write_offset p + ts)).
    + rewrite copy_back_length; rewrite ?L1; lia.
    + by rewrite L1.
Qed.

Lemma write_offset_assertion_and_bounds_witness :
  (∃ m', audio_playback_update_write_offset config_32bit 8 machine_32bit_at_28 = Done m'
         ∧ ARRAY_LENGTH (buffer (g_playback m')) = 48)
  ∧ audio_playback_update_write_offset config_32bit 20 machine_32bit_at_28
    = Fault AssertFailed
  ∧ audio_playback_update_write_offset config_16bit 2000 machine_at_1500
    = Fault AssertFailed.
Proof.
  split; [|split].
  - destruct (write_offset_assertion_and_bounds config_32bit 8 machine_32bit_at_28)
      as (_ & _ & _ & Hsafe).
    + split; cbn; [lia | lia | reflexivity | intros _; reflexivity].
    + split; vm_compute; [reflexivity | discriminate | discriminate].
    + lia.
    + apply Hsafe. vm_compute. reflexivity.
  - destruct (write_offset_assertion_and_bounds config_32bit 20 machine_32bit_at_28)
      as (_ & _ & Hassert & _).
    + split; cbn; [lia | lia | reflexivity | intros _; reflexivity].
    + split; vm_compute; [reflexivity | discriminate | discriminate].
    + lia.
    + apply Hassert; vm_compute; [reflexivity | intros H; discriminate H].
  - destruct (write_offset_assertion_and_bounds config_16bit 2000 machine_at_1500)
      as (_ & Hassert & _ & _).
    + split; cbn; [lia | lia | reflexivity | intros H; discriminate H].
    + split; vm_compute; [reflexivity | discriminate | discriminate].
    + lia.
    + apply Hassert. vm_compute. intros H. discriminate H.
Defined.

(** ** Buffering *)

(** A packet that arrives while the machine is buffering, the I2S side is
    not active and the write offset stays below the nominal size. *)
Lemma received_cb_while_buffering (cfg : audio_config) (usbp ep ts : Z) (i2s : I2SDriver)
    (m : machine) :
  config_wf cfg → machine_wf cfg m →
  let p := g_playback m in
  let new := buffer_write_offset p + ts in
  b_streaming_enabled p = true → b_playback_enabled p = false →
  0 < ts → i2s_state i2s ≠ I2S_ACTIVE →
  new < buffer_size p → new < ARRAY_LENGTH (buffer p) →
  ∃ m', audio_playback_received_cb cfg usbp ep ts i2s m = Done m'
        ∧ machine_wf cfg m'
        ∧ packet_size (g_playback m') = packet_size p
        ∧ buffer_size (g_playback m') = buffer_size p
        ∧ buffer_target_fill_size (g_playback m') = buffer_target_fill_size p
        ∧ b_streaming_enabled (g_playback m') = true
        ∧ gp_mailbox m' = gp_mailbox m
        ∧ buffer_write_offset (g_playback m') = new
        ∧ buffer_read_offset (g_playback m') = 0
        ∧ buffer_fill_size (g_playback m') = new
        ∧ (new < buffer_target_fill_size p →
           b_playback_enabled (g_playback m') = false
           ∧ io_log m' = io_log m ++ [usbStartReceiveI usbp ep new (AUDIO_MAX_PACKET_SIZE cfg)])
        ∧ (buffer_target_fill_size p ≤ new →
           b_playback_enabled (g_playback m') = true
           ∧ io_log m' = io_log m
                         ++ [chMBPostI (gp_mailbox m) AUDIO_COMMON_MSG_START_PLAYBACK;
                             usbStartReceiveI usbp ep new (AUDIO_MAX_PACKET_SIZE cfg)]).
Proof.
  intros Hcfg Hm p new Hs Hp Hts Hi2s Hnowrap Hfit.
  destruct (audio_playback_update_write_offset_done cfg ts m Hcfg Hm ltac:(lia) Hfit)
    as (b1 & Hb1 & L1 & Hrun).
  fold p new in Hb1, L1, Hrun.
  rewrite decide_False in Hrun by lia.
  pose proof (wf_write_offset cfg m Hm) as Hwo.
  pose proof (wf_buffer_length cfg m Hm) as Hlen. fold p in Hwo, Hlen.
  assert (Hmod : wrap_unsigned new (buffer_size p) = new).
  { unfold wrap_unsigned. apply Z.mod_small. unfold new. lia. }
  assert (Hfill : subtract_circular_unsigned new 0 (buffer_size p) = new).
  { unfold subtract_circular_unsigned. rewrite Z.sub_0_r. apply Z.mod_small. unfold new. lia. }
  rewrite Hmod in Hrun.
  rewrite audio_playback_received_cb_packet by (done || lia).
  rewrite Hrun, bind_Done.
  unfold audio_playback_update_read_offset. rewrite decide_False by done.
  unfold audio_playback_update_fill_size, audio_playback_start, audio_playback_is_enabled.
  cbn [with_playback g_playback gp_mailbox io_log
       set_buffer set_buffer_write_offset set_buffer_read_offset set_buffer_fill_size
       packet_size buffer buffer_size buffer_write_offset buffer_read_offset
       buffer_target_fill_size buffer_fill_size b_streaming_enabled b_playback_enabled].
  fold p. rewrite Hp, Hfill.
  destruct (decide (buffer_target_fill_size p ≤ new)) as [Hge|Hlt].
  - eexists. split; [reflexivity|]. cbn. fold p.
    split; [split; cbn; fold p|].
    + unfold ARRAY_LENGTH in *. by rewrite L1.
    + unfold new. lia.
    + apply (wf_buffer_size cfg m Hm).
    + repeat split; try done; try lia. by rewrite <- app_assoc.
  - eexists. split; [reflexivity|]. cbn. fold p.
    split; [split; cbn; fold p|].
    + unfold ARRAY_LENGTH in *. by rewrite L1.
    + unfold new. lia.
    + apply (wf_buffer_size cfg m Hm).
    + repeat split; try done; try lia.
Qed.

Lemma fresh_session (cfg : audio_config) (rate usbp : Z) (m0 : machine) :
  b_streaming_enabled (g_playback m0) = false →
  let m1 := audio_playback_start_streaming cfg usbp (audio_playback_set_sample_rate cfg rate m0) in
  let size := size_t_wrap (AUDIO_COMMON_GET_PACKET_SIZE cfg (AUDIO_CHANNEL_COUNT cfg) rate
                             (AUDIO_SAMPLE_SIZE cfg)) in
  packet_size (g_playback m1) = size
  ∧ buffer_size (g_playback m1)
    = AUDIO_COMMON_GET_BUFFER_SIZE (AUDIO_BUFFER_PACKET_COUNT cfg) size
  ∧ buffer_target_fill_size (g_playback m1)
    = size_add (AUDIO_COMMON_GET_BUFFER_SIZE (AUDIO_BUFFER_PACKET_COUNT cfg) size / 2) (size / 2)
  ∧ buffer (g_playback m1) = buffer (g_playback m0)
  ∧ buffer_write_offset (g_playback m1) = 0
  ∧ b_streaming_enabled (g_playback m1) = true
  ∧ b_playback_enabled (g_playback m1) = false.
Proof.
  intros Hs. unfold audio_playback_start_streaming, audio_playback_set_sample_rate.
  cbn. rewrite Hs. cbn. repeat split; reflexivity.
Qed.

(** C3: with packet size 192 and a buffer of 8 packets the sample rate
    setting yields buffer size 1536 and target fill size 864; in a session
    started from there, with the I2S side not active, four packets of 192
    bytes leave the fill size at 768 and playback disabled, and the fifth
    brings the fill size to 960, enables playback and posts the one start
    message of the session. *)
Theorem buffering_threshold_scenario
    (cfg : audio_config) (rate usbp ep : Z) (i2s : nat → I2SDriver) (m0 : machine) :
  config_wf cfg → machine_wf cfg m0 →
  AUDIO_COMMON_GET_PACKET_SIZE cfg (AUDIO_CHANNEL_COUNT cfg) rate (AUDIO_SAMPLE_SIZE cfg) = 192 →
  AUDIO_BUFFER_PACKET_COUNT cfg = 8 →
  1536 ≤ AUDIO_MAX_BUFFER_SIZE cfg →
  b_streaming_enabled (g_playback m0) = false →
  (∀ k, i2s_state (i2s k) ≠ I2S_ACTIVE) →
  let m1 := audio_playback_start_streaming cfg usbp (audio_playback_set_sample_rate cfg rate m0) in
  buffer_size (g_playback m1) = 1536
  ∧ buffer_target_fill_size (g_playback m1) = 864
  ∧ ∃ m4 m5,
      run cfg [CallReceived usbp ep 192 (i2s 0%nat); CallReceived usbp ep 192 (i2s 1%nat);
               CallReceived usbp ep 192 (i2s 2%nat); CallReceived usbp ep 192 (i2s 3%nat)] m1
      = Done m4
      ∧ buffer_fill_size (g_playback m4) = 768
      ∧ b_playback_enabled (g_playback m4) = false
      ∧ posted AUDIO_COMMON_MSG_START_PLAYBACK (events_since m1 m4) = 0%nat
      ∧ audio_playback_received_cb cfg usbp ep 192 (i2s 4%nat) m4 = Done m5
      ∧ buffer_fill_size (g_playback m5) = 960
      ∧ b_playback_enabled (g_playback m5) = true
      ∧ posted AUDIO_COMMON_MSG_START_PLAYBACK (events_since m1 m5) = 1%nat.
Proof.
  intros Hcfg Hm0 Hpacket Hcount Hmax Hs0 Hidle m1.
  destruct (fresh_session cfg rate usbp m0 Hs0) as (Hps & Hbs & Htarget & Hbuf & Hwo & Hs & Hp).
  fold m1 in Hps, Hbs, Htarget, Hbuf, Hwo, Hs, Hp.
  rewrite Hpacket, Hcount in *.
  change (AUDIO_COMMON_GET_BUFFER_SIZE 8 (size_t_wrap 192)) with 1536 in *.
  change (size_add (1536 / 2) (size_t_wrap 192 / 2)) with 864 in *.
  split; [exact Hbs|]. split; [exact Htarget|].
  pose proof (cfg_max_packet_nonneg cfg Hcfg) as Hmaxp.
  assert (Hm1 : machine_wf cfg m1).
  { split.
    - rewrite Hbuf. apply (wf_buffer_length cfg m0 Hm0).
    - rewrite Hwo. done.
    - rewrite Hbs. done. }
  destruct (received_cb_while_buffering cfg usbp ep 192 (i2s 0%nat) m1 Hcfg Hm1)
    as (m2 & Hrun1 & Hm2 & _ & Hbs2 & Ht2 & Hs2 & _ & Hwo2 & _ & Hfill2 & Hlow2 & _);
    try done; try (destruct Hm1 as [Hlen _ _]; lia).
  rewrite Hwo, Hbs, ?Htarget in *. destruct Hlow2 as [Hp2 Hlog2]; [lia|].
  destruct (received_cb_while_buffering cfg usbp ep 192 (i2s 1%nat) m2 Hcfg Hm2)
    as (m3 & Hrun2 & Hm3 & _ & Hbs3 & Ht3 & Hs3 & _ & Hwo3 & _ & Hfill3 & Hlow3 & _);
    try done; try (destruct Hm2 as [Hlen _ _]; lia).
  rewrite Hwo2, Hbs2, ?Ht2 in *. destruct Hlow3 as [Hp3 Hlog3]; [lia|].
  destruct (received_cb_while_buffering cfg usbp ep 192 (i2s 2%nat) m3 Hcfg Hm3)
    as (m4 & Hrun3 & Hm4 & _ & Hbs4 & Ht4 & Hs4 & _ & Hwo4 & _ & Hfill4 & Hlow4 & _);
    try done; try (destruct Hm3 as [Hlen _ _]; lia).
  rewrite Hwo3, Hbs3, ?Ht3 in *. destruct Hlow4 as [Hp4 Hlog4]; [lia|].
  destruct (received_cb_while_buffering cfg usbp ep 192 (i2s 3%nat) m4 Hcfg Hm4)
    as (m5 & Hrun4 & Hm5 & _ & Hbs5 & Ht5 & Hs5 & Hmb5 & Hwo5 & _ & Hfill5 & Hlow5 & _);
    try done; try (destruct Hm4 as [Hlen _ _]; lia).
  rewrite Hwo4, Hbs4, ?Ht4 in *. destruct Hlow5 as [Hp5 Hlog5]; [lia|].
  destruct (received_cb_while_buffering cfg usbp ep 192 (i2s 4%nat) m5 Hcfg Hm5)
    as (m6 & Hrun5 & _ & _ & _ & _ & _ & _ & _ & _ & Hfill6 & _ & Hhigh6);
    try done; try (destruct Hm5 as [Hlen _ _]; lia).
  rewrite Hwo5, ?Ht5 in *. destruct Hhigh6 as [Hp6 Hlog6]; [lia|].
  exists m5, m6. split.
  { cbn [run step]. rewrite Hrun1, bind_Done. cbn [run step].
    rewrite Hrun2, bind_Done. cbn [run step]. rewrite Hrun3, bind_Done.
    cbn [run step]. rewrite Hrun4, bind_Done. reflexivity. }
  split; [exact Hfill5|]. split; [exact Hp5|]. split.
  { rewrite (events_since_app m1 m5 _ ltac:(rewrite Hlog5, Hlog4, Hlog3, Hlog2, <- !app_assoc;
                                          reflexivity)).
    reflexivity. }
  split; [exact Hrun5|]. split; [exact Hfill6|]. split; [exact Hp6|].
  rewrite (events_since_app m1 m6 _ ltac:(rewrite Hlog6, Hlog5, Hlog4, Hlog3, Hlog2, <- !app_assoc;
                                        reflexivity)).
  reflexivity.
Qed.

Lemma buffering_threshold_scenario_witness :
  ∃ m4 m5,
    run config_16bit (replicate 4 (CallReceived 7 1 192 i2s_idle))
      (audio_playback_start_streaming config_16bit 7
         (audio_playback_set_sample_rate config_16bit 48000 (initial_machine config_16bit)))
    = Done m4
    ∧ b_playback_enabled (g_playback m4) = false
    ∧ audio_playback_received_cb config_16bit 7 1 192 i2s_idle m4 = Done m5
    ∧ b_playback_enabled (g_playback m5) = true
    ∧ posted AUDIO_COMMON_MSG_START_PLAYBACK
        (events_since
           (audio_playback_start_streaming config_16bit 7
              (audio_playback_set_sample_rate config_16bit 48000 (initial_machine config_16bit)))
           m5) = 1%nat.
Proof.
  destruct (buffering_threshold_scenario config_16bit 48000 7 1 (fun _ => i2s_idle)
              (initial_machine config_16bit))
    as (_ & _ & m4 & m5 & Hrun4 & _ & Hp4 & _ & Hrun5 & _ & Hp5 & Hposted).
  - split; cbn; [lia | lia | reflexivity | intros H; discriminate H].
  - split; vm_compute; [reflexivity | discriminate | discriminate].
  - reflexivity.
  - reflexivity.
  - vm_compute. discriminate.
  - reflexivity.
  - intros k H. discriminate H.
  - exists m4, m5. repeat split; assumption.
Defined.

(** ** The log of posts and USB calls *)

Lemma posts_app (l1 l2 : list io_event) : posts (l1 ++ l2) = posts l1 ++ posts l2.
Proof. unfold posts. apply flat_map_app. Qed.

Lemma replay_posts_app (l1 l2 : list audio_msg) :
  ∀ playing, replay_posts playing (l1 ++ l2)
             = match replay_posts playing l1 with
               | Some playing' => replay_posts playing' l2
               | None => None
               end.
Proof.
  induction l1 as [|msg l1 IH]; intros playing; [done|].
  destruct msg, playing; cbn; auto.
Qed.

Lemma replay_transition_posts (mailbox : Z) (before after : bool) :
  replay_posts before (posts (transition_posts mailbox before after)) = Some after.
Proof. by destruct before, after. Qed.

Lemma transition_posts_posted_to (mailbox : Z) (before after : bool) :
  Forall (posted_to mailbox) (transition_posts mailbox before after).
Proof. destruct before, after; repeat constructor. Qed.

(** What the callback appends to the log while streaming: the post that
    goes with the change of the playback flag, if any, then the call that
    arms the next reception at the write offset. *)
Lemma received_cb_log (cfg : audio_config) (usbp ep ts : Z) (i2s : I2SDriver) (m m' : machine) :
  b_streaming_enabled (g_playback m) = true →
  audio_playback_received_cb cfg usbp ep ts i2s m = Done m' →
  gp_mailbox m' = gp_mailbox m
  ∧ io_log m'
    = io_log m
      ++ transition_posts (gp_mailbox m) (b_playback_enabled (g_playback m))
           (b_playback_enabled (g_playback m'))
      ++ [usbStartReceiveI usbp ep (buffer_write_offset (g_playback m'))
            (AUDIO_MAX_PACKET_SIZE cfg)].
Proof.
  intros Hs Hrun. destruct (decide (ts = 0)) as [->|Hts].
  - unfold audio_playback_received_cb in Hrun. rewrite Hs in Hrun. cbn in Hrun.
    injection Hrun as <-.
    unfold audio_playback_stop, audio_playback_is_enabled.
    destruct (b_playback_enabled (g_playback m)) eqn:Hp; cbn; rewrite ?Hp; cbn.
    + split; [done|]. by rewrite <- app_assoc.
    + done.
  - rewrite audio_playback_received_cb_packet in Hrun by done.
    apply bind_Done_inv in Hrun as (m1 & Hm1 & Hrun).
    apply audio_playback_update_write_offset_frame in Hm1 as [buf ->].
    injection Hrun as <-.
    unfold audio_playback_start, audio_playback_is_enabled, audio_playback_update_fill_size,
      audio_playback_update_read_offset.
    destruct (decide (i2s_state i2s = I2S_ACTIVE));
      cbn; destruct (b_playback_enabled (g_playback m)) eqn:Hp; cbn; rewrite ?Hp; cbn;
      try done;
      match goal with |- context [decide ?P] => destruct (decide P) end;
      cbn; rewrite ?Hp; cbn; try done; by rewrite <- app_assoc.
Qed.

Lemma step_posts (cfg : audio_config) (c : call) (m m' : machine) :
  not_init c → playback_implies_streaming m → step cfg c m = Done m' →
  gp_mailbox m' = gp_mailbox m
  ∧ ∃ new, io_log m' = io_log m ++ new
           ∧ posts new
             = posts (transition_posts (gp_mailbox m) (b_playback_enabled (g_playback m))
                        (b_playback_enabled (g_playback m')))
           ∧ Forall (posted_to (gp_mailbox m)) new.
Proof.
  intros Hc Hinv Hstep. unfold playback_implies_streaming in Hinv.
  destruct c as [mb b|r|u|u|u ep ts i2s]; cbn in Hc; [done|..]; cbn [step] in Hstep.
  - injection Hstep as <-. split; [done|]. exists []. cbn. rewrite app_nil_r.
    by destruct (b_playback_enabled (g_playback m)).
  - injection Hstep as <-. unfold audio_playback_start_streaming.
    destruct (b_streaming_enabled (g_playback m)) eqn:Hs.
    + split; [done|]. exists []. rewrite app_nil_r.
      by destruct (b_playback_enabled (g_playback m)).
    + destruct (b_playback_enabled (g_playback m)) eqn:Hp; [by specialize (Hinv eq_refl)|].
      cbn. split; [done|]. eexists. split; [by rewrite <- app_assoc|].
      split; [done | repeat constructor].
  - injection Hstep as <-. unfold audio_playback_stop_streaming.
    destruct (b_streaming_enabled (g_playback m)) eqn:Hs; cbn [negb].
    + unfold audio_playback_stop, audio_playback_is_enabled. cbn.
      destruct (b_playback_enabled (g_playback m)) eqn:Hp; cbn.
      * split; [done|]. eexists. split; [done|]. split; [done | repeat constructor].
      * split; [done|]. exists []. rewrite app_nil_r. by rewrite Hp.
    + destruct (b_playback_enabled (g_playback m)) eqn:Hp; [by specialize (Hinv eq_refl)|].
      split; [done|]. exists []. by rewrite app_nil_r.
  - destruct (b_streaming_enabled (g_playback m)) eqn:Hs.
    + destruct (received_cb_log cfg u ep ts i2s m m' Hs Hstep) as [Hmb Hlog].
      split; [done|]. eexists. split; [exact Hlog|]. split.
      * by rewrite posts_app, app_nil_r.
      * apply Forall_app. split; [apply transition_posts_posted_to | repeat constructor].
    + unfold audio_playback_received_cb in Hstep. rewrite Hs in Hstep. cbn in Hstep.
      injection Hstep as <-. split; [done|]. exists []. rewrite app_nil_r.
      by destruct (b_playback_enabled (g_playback m)).
Qed.

Lemma replay_posts_counts (events : list io_event) :
  ∀ before after,
    replay_posts before (posts events) = Some after →
    (posted AUDIO_COMMON_MSG_START_PLAYBACK events + (if before then 1 else 0)
     = posted AUDIO_COMMON_MSG_STOP_PLAYBACK events + (if after then 1 else 0))%nat.
Proof.
  unfold posted.
  induction events as [|e events IH]; intros before after H.
  - cbn in H. injection H as <-. done.
  - destruct e as [mb [] | |]; cbn [posts flat_map app replay_posts] in H;
      cbn [List.filter is_post].
    + repeat case_bool_decide; try done.
      destruct before; [done|]. apply IH in H. cbn [length]. lia.
    + repeat case_bool_decide; try done.
      destruct before; [|done]. apply IH in H. cbn [length]. lia.
    + by apply IH.
    + by apply IH.
Qed.

(** X1: in a sequence of calls without [audio_playback_init], start and
    stop messages are posted in turn, starting from the state of the
    playback flag; all of them go to the mailbox set at initialisation; at
    the end the number of start messages exceeds the number of stop messages
    by one exactly when playback is enabled. *)
Theorem posts_alternate (cfg : audio_config) (cs : list call) :
  ∀ (m m' : machine),
    Forall not_init cs →
    playback_implies_streaming m → posts_in_turn m →
    run cfg cs m = Done m' →
    posts_in_turn m'
    ∧ gp_mailbox m' = gp_mailbox m
    ∧ (∃ new, io_log m' = io_log m ++ new ∧ Forall (posted_to (gp_mailbox m)) new)
    ∧ posted AUDIO_COMMON_MSG_START_PLAYBACK (io_log m')
      = (posted AUDIO_COMMON_MSG_STOP_PLAYBACK (io_log m')
         + (if b_playback_enabled (g_playback m') then 1 else 0))%nat.
Proof.
  assert (Hmain : ∀ (m m' : machine),
             Forall not_init cs →
             playback_implies_streaming m → posts_in_turn m →
             run cfg cs m = Done m' →
             posts_in_turn m'
             ∧ gp_mailbox m' = gp_mailbox m
             ∧ (∃ new, io_log m' = io_log m ++ new ∧ Forall (posted_to (gp_mailbox m)) new)).
  { induction cs as [|c cs IH]; intros m m' Hcs Hinv Hturn Hrun; cbn [run] in Hrun.
    - injection Hrun as <-. split; [done|]. split; [done|].
      exists []. by rewrite app_nil_r.
    - apply bind_Done_inv in Hrun as (m1 & Hstep & Hrun).
      inversion Hcs as [|? ? Hc Hcs']; subst.
      destruct (step_posts cfg c m m1 Hc Hinv Hstep) as (Hmb & new & Hlog & Hposts & Hto).
      assert (Hturn1 : posts_in_turn m1).
      { unfold posts_in_turn in *. rewrite Hlog, posts_app, replay_posts_app, Hturn, Hposts.
        apply replay_transition_posts. }
      destruct (IH m1 m' Hcs' (step_playback_streaming cfg c m m1 Hstep Hinv) Hturn1 Hrun)
        as (Hturn' & Hmb' & new' & Hlog' & Hto').
      split; [done|]. split; [congruence|].
      exists (new ++ new'). split; [by rewrite Hlog', Hlog, app_assoc|].
      apply Forall_app. split; [done|]. by rewrite <- Hmb. }
  intros m m' Hcs Hinv Hturn Hrun.
  destruct (Hmain m m' Hcs Hinv Hturn Hrun) as (Hturn' & Hmb & Hnew).
  repeat split; try done.
  pose proof (replay_posts_counts (io_log m') false _ Hturn') as Hcount.
  rewrite Nat.add_0_r in Hcount. exact Hcount.
Qed.

Lemma posts_alternate_witness :
  posts (io_log (after config_16bit (session_48k ++ restart_calls)))
  = [AUDIO_COMMON_MSG_START_PLAYBACK; AUDIO_COMMON_MSG_STOP_PLAYBACK;
     AUDIO_COMMON_MSG_START_PLAYBACK; AUDIO_COMMON_MSG_STOP_PLAYBACK]
  ∧ posts_in_turn (after config_16bit (session_48k ++ restart_calls)).
Proof.
  split; [vm_compute; reflexivity|].
  refine (proj1 (posts_alternate config_16bit restart_calls playing_machine _ _ _ _ _)).
  - repeat (constructor; [exact I|]). constructor.
  - intros _. vm_compute. reflexivity.
  - vm_compute. reflexivity.
  - vm_compute. reflexivity.
Defined.

(** ** The callback, in general *)

Lemma received_cb_not_streaming (cfg : audio_config) (usbp ep ts : Z)
    (i2s : I2SDriver) (m : machine) :
  b_streaming_enabled (g_playback m) = false →
  audio_playback_received_cb cfg usbp ep ts i2s m = Done m.
Proof. intros Hs. unfold audio_playback_received_cb. by rewrite Hs. Qed.

(** The write offset and the nominal size after the callback. *)
Lemma received_cb_write_offset (cfg : audio_config) (usbp ep ts : Z) (i2s : I2SDriver)
    (m m' : machine) :
  audio_playback_received_cb cfg usbp ep ts i2s m = Done m' →
  buffer_size (g_playback m') = buffer_size (g_playback m)
  ∧ (buffer_write_offset (g_playback m') = 0
     ∨ buffer_write_offset (g_playback m') = buffer_write_offset (g_playback m)
     ∨ buffer_write_offset (g_playback m')
       = wrap_unsigned (size_add (buffer_write_offset (g_playback m)) ts)
           (buffer_size (g_playback m))).
Proof.
  intros Hrun. destruct (b_streaming_enabled (g_playback m)) eqn:Hs.
  - destruct (decide (ts = 0)) as [->|Hts].
    + unfold audio_playback_received_cb in Hrun. rewrite Hs in Hrun. cbn in Hrun.
      injection Hrun as <-. unfold audio_playback_stop.
      destruct (negb (audio_playback_is_enabled m)); cbn; auto.
    + rewrite audio_playback_received_cb_packet in Hrun by done.
      apply bind_Done_inv in Hrun as (m1 & Hm1 & Hrun).
      apply audio_playback_update_write_offset_frame in Hm1 as [buf ->].
      injection Hrun as <-.
      unfold audio_playback_start, audio_playback_is_enabled, audio_playback_update_fill_size,
        audio_playback_update_read_offset.
      destruct (decide (i2s_state i2s = I2S_ACTIVE)); cbn;
        destruct (b_playback_enabled (g_playback m)); cbn; auto;
        match goal with |- context [decide ?P] => destruct (decide P) end; cbn; auto.
  - rewrite received_cb_not_streaming in Hrun by done.
    injection Hrun as <-. auto.
Qed.

(** X2: a packet of non-zero size that arrives while the machine is
    buffering enables playback exactly when the fill size it leaves has
    reached the target fill size, whatever the I2S side shows and whether or
    not the write offset wraps; a start message is posted in that case and
    no message otherwise, and one reception is armed at the new write
    offset. *)
Theorem buffering_to_playing (cfg : audio_config) (usbp ep ts : Z) (i2s : I2SDriver)
    (m m' : machine) :
  b_streaming_enabled (g_playback m) = true →
  b_playback_enabled (g_playback m) = false →
  ts ≠ 0 →
  audio_playback_received_cb cfg usbp ep ts i2s m = Done m' →
  buffer_target_fill_size (g_playback m') = buffer_target_fill_size (g_playback m)
  ∧ (b_playback_enabled (g_playback m') = true
     ↔ buffer_target_fill_size (g_playback m) ≤ buffer_fill_size (g_playback m'))
  ∧ b_streaming_enabled (g_playback m') = true
  ∧ events_since m m'
    = (if b_playback_enabled (g_playback m')
       then [chMBPostI (gp_mailbox m) AUDIO_COMMON_MSG_START_PLAYBACK] else [])
      ++ [usbStartReceiveI usbp ep (buffer_write_offset (g_playback m'))
            (AUDIO_MAX_PACKET_SIZE cfg)].
Proof.
  intros Hs Hp Hts Hrun.
  destruct (received_cb_log cfg usbp ep ts i2s m m' Hs Hrun) as [_ Hlog].
  rewrite Hp in Hlog.
  assert (Hev : events_since m m'
                = (if b_playback_enabled (g_playback m')
                   then [chMBPostI (gp_mailbox m) AUDIO_COMMON_MSG_START_PLAYBACK] else [])
                  ++ [usbStartReceiveI usbp ep (buffer_write_offset (g_playback m'))
                        (AUDIO_MAX_PACKET_SIZE cfg)]).
  { apply events_since_app. rewrite Hlog.
    by destruct (b_playback_enabled (g_playback m')). }
  destruct (received_cb_flags _ _ _ _ _ _ _ Hrun) as (Hs' & _).
  rewrite audio_playback_received_cb_packet in Hrun by done.
  apply bind_Done_inv in Hrun as (m1 & Hm1 & Hrun).
  apply audio_playback_update_write_offset_frame in Hm1 as [buf ->].
  injection Hrun as Hm'.
  split; [|split; [|split; [congruence | exact Hev]]]; subst m';
    unfold audio_playback_start, audio_playback_is_enabled, audio_playback_update_fill_size,
      audio_playback_update_read_offset;
    destruct (decide (i2s_state i2s = I2S_ACTIVE)); cbn; rewrite Hp;
    match goal with |- context [decide ?P] => destruct (decide P) end; cbn; rewrite ?Hp;
    try done; split; (done || lia).
Qed.

Lemma buffering_to_playing_witness :
  b_playback_enabled (g_playback (after config_16bit (take 7 session_48k ++
                                    [CallReceived 7 1 100 (i2s_running 0)]))) = true
  ∧ b_playback_enabled (g_playback (after config_16bit (take 7 session_48k ++
                                      [CallReceived 7 1 100 (i2s_running 384)]))) = false.
Proof.
  split.
  - refine (proj2 (proj1 (proj2 (buffering_to_playing config_16bit 7 1 100 (i2s_running 0)
                                   buffering_machine _ _ _ _ _))) _).
    + reflexivity.
    + reflexivity.
    + discriminate.
    + vm_compute. reflexivity.
    + vm_compute. discriminate.
  - destruct (b_playback_enabled
                (g_playback (after config_16bit (take 7 session_48k ++
                               [CallReceived 7 1 100 (i2s_running 384)])))) eqn:E; [|reflexivity].
    refine (match proj1 (proj1 (proj2 (buffering_to_playing config_16bit 7 1 100
                                         (i2s_running 384) buffering_machine _ _ _ _ _))) E _
            with end).
    + reflexivity.
    + reflexivity.
    + discriminate.
    + vm_compute. reflexivity.
    + vm_compute. reflexivity.
Defined.

(** X3: while streaming, each callback logs the post that goes with the
    change of the playback flag, if any, and then arms exactly one
    reception, at the write offset it leaves; when the nominal size is
    positive and at most [AUDIO_MAX_BUFFER_SIZE] and the write offset was
    below it, that offset is below the nominal size again and the
    [AUDIO_MAX_PACKET_SIZE] bytes armed for the USB driver lie inside the
    buffer array. *)
Theorem reception_armed_inside_array (cfg : audio_config) (usbp ep ts : Z) (i2s : I2SDriver)
    (m m' : machine) :
  config_wf cfg → machine_wf cfg m →
  b_streaming_enabled (g_playback m) = true →
  0 < buffer_size (g_playback m) ≤ AUDIO_MAX_BUFFER_SIZE cfg →
  buffer_write_offset (g_playback m) < buffer_size (g_playback m) →
  audio_playback_received_cb cfg usbp ep ts i2s m = Done m' →
  ∃ (offset : Z),
    events_since m m'
    = transition_posts (gp_mailbox m) (b_playback_enabled (g_playback m))
        (b_playback_enabled (g_playback m'))
      ++ [usbStartReceiveI usbp ep offset (AUDIO_MAX_PACKET_SIZE cfg)]
    ∧ offset = buffer_write_offset (g_playback m')
    ∧ 0 ≤ offset < buffer_size (g_playback m')
    ∧ offset + AUDIO_MAX_PACKET_SIZE cfg ≤ ARRAY_LENGTH (buffer (g_playback m')).
Proof.
  intros Hcfg Hm Hs Hbs Hwo Hrun.
  destruct (received_cb_log cfg usbp ep ts i2s m m' Hs Hrun) as [_ Hlog].
  destruct (received_cb_write_offset cfg usbp ep ts i2s m m' Hrun) as [Hbs' Hwo'].
  assert (Hm' : machine_wf cfg m') by (by apply (step_wf cfg (CallReceived usbp ep ts i2s) m m')).
  destruct Hm as [_ Hwo0 _]. destruct Hm' as [Hlen' _ _].
  assert (Hrange : 0 ≤ buffer_write_offset (g_playback m') < buffer_size (g_playback m')).
  { rewrite Hbs'. destruct Hwo' as [-> | [-> | ->]]; [lia | lia |].
    unfold wrap_unsigned. apply Z.mod_pos_bound. lia. }
  eexists. split; [apply events_since_app; exact Hlog|].
  split; [done|]. split; [done|]. rewrite Hlen'. lia.
Qed.

Lemma reception_armed_inside_array_witness :
  ∃ m' offset,
    audio_playback_received_cb config_16bit 7 1 192 (i2s_running 650) machine_at_1500 = Done m'
    ∧ offset = buffer_write_offset (g_playback m')
    ∧ 0 ≤ offset < 1536.
Proof.
  destruct (audio_playback_received_cb_done config_16bit 7 1 192 (i2s_running 650)
              machine_at_1500) as [m' Hrun].
  - split; cbn; [lia | lia | reflexivity | intros H; discriminate H].
  - split; vm_compute; [reflexivity | discriminate | discriminate].
  - lia.
  - vm_compute. reflexivity.
  - destruct (reception_armed_inside_array config_16bit 7 1 192 (i2s_running 650)
                machine_at_1500 m') as (offset & _ & Hoff & Hrange & _).
    + split; cbn; [lia | lia | reflexivity | intros H; discriminate H].
    + split; vm_compute; [reflexivity | discriminate | discriminate].
    + reflexivity.
    + vm_compute. split; [reflexivity | discriminate].
    + vm_compute. reflexivity.
    + exact Hrun.
    + exists m', offset. split; [exact Hrun|]. split; [exact Hoff|].
      destruct (received_cb_write_offset _ _ _ _ _ _ _ Hrun) as [Hbs _].
      rewrite Hbs in Hrange. exact Hrange.
Defined.

(** ** Sessions *)

Lemma step_session_ok (cfg : audio_config) (c : call) (m : machine) :
  config_wf cfg → session_ok cfg m → traffic_ok cfg c →
  ∃ m', step cfg c m = Done m' ∧ session_ok cfg m'.
Proof.
  intros Hcfg (Hm & Hbs & Hwo) Hc.
  assert (Hdone : ∃ m', step cfg c m = Done m').
  { destruct c as [mb b|r|u|u|u ep ts i2s]; cbn [step]; eauto.
    cbn in Hc. apply audio_playback_received_cb_done; [done | done | lia |].
    rewrite (wf_buffer_length cfg m Hm). lia. }
  destruct Hdone as [m' Hstep]. exists m'. split; [done|].
  split; [by eapply step_wf|].
  destruct c as [mb b|r|u|u|u ep ts i2s]; cbn [step] in Hstep.
  - injection Hstep as <-. cbn. lia.
  - injection Hstep as <-. cbn. cbn in Hc. unfold rate_fits in Hc. cbn in Hc. lia.
  - injection Hstep as <-. unfold audio_playback_start_streaming.
    destruct (b_streaming_enabled (g_playback m)); cbn; lia.
  - injection Hstep as <-. unfold audio_playback_stop_streaming, audio_playback_stop.
    destruct (negb (b_streaming_enabled (g_playback m))); [lia|].
    destruct (negb (audio_playback_is_enabled
                      (with_playback (set_b_streaming_enabled false) m))); cbn; lia.
  - destruct (received_cb_write_offset cfg u ep ts i2s m m' Hstep) as [Hbs' Hwo'].
    rewrite Hbs'. split; [done|].
    destruct Hwo' as [-> | [-> | ->]]; [lia | lia |].
    unfold wrap_unsigned.
    pose proof (Z.mod_pos_bound
                  (size_add (buffer_write_offset (g_playback m)) ts)
                  (buffer_size (g_playback m)) ltac:(lia)).
    lia.
Qed.

(** X4: from a configured machine whose write offset lies in the nominal
    part of the array, a sequence of calls in which every transaction has at
    most [AUDIO_MAX_PACKET_SIZE] bytes and every sample rate yields a
    nominal size within (0, [AUDIO_MAX_BUFFER_SIZE]] runs to the end: the
    assertion never fails and no access leaves the array; the machine at the
    end is of the same kind. *)
Theorem traffic_within_limits_never_faults (cfg : audio_config) (cs : list call) :
  ∀ (m : machine),
    config_wf cfg → session_ok cfg m → Forall (traffic_ok cfg) cs →
    ∃ m', run cfg cs m = Done m' ∧ session_ok cfg m'.
Proof.
  induction cs as [|c cs IH]; intros m Hcfg Hm Hcs.
  - exists m. done.
  - inversion Hcs as [|? ? Hc Hcs']; subst.
    destruct (step_session_ok cfg c m Hcfg Hm Hc) as (m1 & Hstep & Hm1).
    destruct (IH m1 Hcfg Hm1 Hcs') as (m' & Hrun & Hm').
    exists m'. split; [|done]. cbn [run]. by rewrite Hstep.
Qed.

Lemma step_within_array (cfg : audio_config) (c : call) (m : machine) :
  config_wf cfg → within_array cfg m → transaction_size_ok cfg c →
  step cfg c m = Fault AssertFailed
  ∨ ∃ m', step cfg c m = Done m' ∧ within_array cfg m'.
Proof.
  intros Hcfg (Hm & Hbs & Hwo) Hc.
  pose proof (cfg_max_buffer_nonneg cfg Hcfg) as Hb.
  pose proof (cfg_max_packet_nonneg cfg Hcfg) as Hp.
  assert (Hkeep : ∀ m', step cfg c m = Done m' →
                        0 < buffer_size (g_playback m') →
                        buffer_write_offset (g_playback m') = 0
                        ∨ buffer_write_offset (g_playback m')
                          = buffer_write_offset (g_playback m) →
                        within_array cfg m').
  { intros m' Hstep Hbs' Hwo'. split; [by eapply step_wf|]. split; [done|].
    destruct Hwo' as [-> | ->]; lia. }
  destruct c as [mb b|r|u|u|u ep ts i2s]; cbn [step] in *.
  - right. eexists. split; [done|]. apply Hkeep; [done | done |]. by left.
  - right. eexists. split; [done|]. apply Hkeep; [done | exact Hc |]. by right.
  - right. eexists. split; [done|].
    apply Hkeep; [done | |]; unfold audio_playback_start_streaming;
      destruct (b_streaming_enabled (g_playback m)); cbn; auto.
  - right. eexists. split; [done|].
    apply Hkeep; [done | |]; unfold audio_playback_stop_streaming, audio_playback_stop;
      destruct (negb (b_streaming_enabled (g_playback m))); auto;
      destruct (negb (audio_playback_is_enabled
                        (with_playback (set_b_streaming_enabled false) m))); cbn; auto.
  - cbn in Hc. destruct Hc as [Hts Hsize].
    pose proof (wf_write_offset cfg m Hm) as Hwo0.
    pose proof (wf_buffer_length cfg m Hm) as Hlen.
    destruct (decide (buffer_write_offset (g_playback m) + ts
                      < ARRAY_LENGTH (buffer (g_playback m)))) as [Hfit|Hnofit].
    + right.
      destruct (audio_playback_received_cb_done cfg u ep ts i2s m Hcfg Hm Hts Hfit)
        as [m' Hrun].
      exists m'. split; [done|].
      split; [by apply (step_wf cfg (CallReceived u ep ts i2s) m m')|].
      destruct (received_cb_write_offset cfg u ep ts i2s m m' Hrun) as [Hbs' Hwo'].
      split; [by rewrite Hbs'|].
      destruct Hwo' as [-> | [-> | ->]]; [lia | lia |].
      unfold wrap_unsigned, size_add.
      rewrite size_t_wrap_small by lia.
      pose proof (Z.mod_le (buffer_write_offset (g_playback m) + ts)
                    (buffer_size (g_playback m)) ltac:(lia) ltac:(lia)).
      lia.
    + unfold audio_playback_received_cb.
      destruct (negb (b_streaming_enabled (g_playback m))) eqn:Hs.
      * right. exists m. split; [done|]. by split.
      * destruct (decide (ts = 0)) as [->|Hne].
        { right. eexists. split; [by rewrite bind_Done|].
          split.
          - destruct Hm as [? ? ?]. unfold audio_playback_stop.
            destruct (negb (audio_playback_is_enabled m)); split; cbn; done.
          - unfold audio_playback_stop.
            destruct (negb (audio_playback_is_enabled m)); cbn; lia. }
        left. unfold audio_playback_update_write_offset, size_add.
        rewrite size_t_wrap_small by lia.
        by rewrite decide_False.
Qed.

(** X5: from a configured machine whose write offset lies in the array, a
    sequence of calls whose transaction sizes cannot overflow [size_t] when
    added to a write offset (size + length of the array below 2^32) never
    leads to an access outside the buffer array: the sequence either runs to
    the end or halts at the assertion. *)
Theorem no_access_outside_array (cfg : audio_config) (cs : list call) :
  ∀ (m : machine),
    config_wf cfg → within_array cfg m → Forall (transaction_size_ok cfg) cs →
    run cfg cs m = Fault AssertFailed
    ∨ ∃ m', run cfg cs m = Done m' ∧ within_array cfg m'.
Proof.
  induction cs as [|c cs IH]; intros m Hcfg Hm Hcs.
  - right. exists m. done.
  - inversion Hcs as [|? ? Hc Hcs']; subst. cbn [run].
    destruct (step_within_array cfg c m Hcfg Hm Hc) as [-> | (m1 & -> & Hm1)].
    + by left.
    + rewrite bind_Done. by apply IH.
Qed.

Ltac solve_calls :=
  repeat (constructor;
          [first [exact I
                 | vm_compute; first [reflexivity
                                     | split; first [reflexivity | discriminate]]]|]);
  constructor.

Lemma traffic_within_limits_never_faults_witness :
  ∃ m', run config_16bit (drop 2 session_48k ++ restart_calls) configured_machine_16bit
        = Done m'.
Proof.
  destruct (traffic_within_limits_never_faults config_16bit
              (drop 2 session_48k ++ restart_calls) configured_machine_16bit)
    as (m' & Hrun & _).
  - split; cbn; [lia | lia | reflexivity | intros H; discriminate H].
  - split; [split; vm_compute; [reflexivity | discriminate | discriminate]|].
    vm_compute. repeat split; first [reflexivity | discriminate].
  - solve_calls.
  - exists m'. exact Hrun.
Defined.

Lemma no_access_outside_array_witness :
  run config_32bit oversized_calls configured_machine_32bit = Fault AssertFailed.
Proof.
  destruct (no_access_outside_array config_32bit oversized_calls configured_machine_32bit)
    as [Hfail | (m' & Hrun & _)].
  - split; cbn; [lia | lia | reflexivity | intros _; reflexivity].
  - split; [split; vm_compute; [reflexivity | discriminate | discriminate]|].
    vm_compute. split; [reflexivity | discriminate].
  - solve_calls.
  - exact Hfail.
  - exfalso. vm_compute in Hrun. discriminate Hrun.
Defined.

(** ** Bytes the write path leaves alone *)

Lemma store8_other (buf buf' : list Z) (j v : Z) (i : nat) :
  store8 buf j v = Done buf' → Z.of_nat i ≠ j → buf' !! i = buf !! i.
Proof.
  unfold store8. case_decide as Hj; [|discriminate].
  intros [= <-] Hne. apply list_lookup_insert_ne. lia.
Qed.

Lemma store32_other (buf buf' : list Z) (p w : Z) (i : nat) :
  store32 buf p w = Done buf' →
  Z.of_nat i < p ∨ p + 4 ≤ Z.of_nat i → buf' !! i = buf !! i.
Proof.
  unfold store32. intros H Hi.
  apply bind_Done_inv in H as (b1 & H1 & H).
  apply bind_Done_inv in H as (b2 & H2 & H).
  apply bind_Done_inv in H as (b3 & H3 & H4).
  rewrite (store8_other _ _ _ _ i H4) by lia.
  rewrite (store8_other _ _ _ _ i H3) by lia.
  rewrite (store8_other _ _ _ _ i H2) by lia.
  apply (store8_other _ _ _ _ i H1). lia.
Qed.

Lemma swap_sample_words_other (n : nat) :
  ∀ (p : Z) (buf buf' : list Z) (i : nat),
    swap_sample_words n p buf = Done buf' →
    Z.of_nat i < p ∨ p + 4 * Z.of_nat n ≤ Z.of_nat i → buf' !! i = buf !! i.
Proof.
  induction n as [|n IH]; intros p buf buf' i H Hi; cbn [swap_sample_words] in H.
  - by injection H as <-.
  - apply bind_Done_inv in H as (w & _ & H).
    apply bind_Done_inv in H as (b1 & H1 & H).
    rewrite (IH _ _ _ i H) by lia.
    apply (store32_other _ _ _ _ i H1). lia.
Qed.

Lemma copy_back_other (b1 : list Z) (size excess : Z) (i : nat) :
  0 ≤ size → 0 ≤ excess → size + excess ≤ Z.of_nat (length b1) →
  excess ≤ Z.of_nat i → copy_back b1 size excess !! i = b1 !! i.
Proof.
  intros Hsize Hexcess Hfit Hi. unfold copy_back.
  assert (Hlen : length (take (Z.to_nat excess) (drop (Z.to_nat size) b1)) = Z.to_nat excess).
  { rewrite length_take, length_drop. lia. }
  rewrite lookup_app_r by lia. rewrite Hlen, lookup_drop. f_equal. lia.
Qed.

(** X6: a write that passes the assertion changes no byte of the buffer
    other than those of the received packet, at [write offset, write offset
    + transaction size), and those the tail is copied to, at [0, new offset
    - buffer_size); unless samples have 32 bit it changes only the latter. *)
Theorem write_leaves_other_bytes (cfg : audio_config) (ts : Z) (m : machine) :
  config_wf cfg → machine_wf cfg m → 0 ≤ ts →
  let p := g_playback m in
  let new := buffer_write_offset p + ts in
  new < ARRAY_LENGTH (buffer p) →
  ∃ m', audio_playback_update_write_offset cfg ts m = Done m'
        ∧ (∀ i : nat,
              new - buffer_size p ≤ Z.of_nat i →
              Z.of_nat i < buffer_write_offset p ∨ new ≤ Z.of_nat i →
              buffer (g_playback m') !! i = buffer p !! i)
        ∧ (AUDIO_RESOLUTION_BIT cfg ≠ 32 →
           ∀ i : nat,
             new - buffer_size p ≤ Z.of_nat i →
             buffer (g_playback m') !! i = buffer p !! i).
Proof.
  intros Hcfg Hm Hts p new Hfit.
  destruct (audio_playback_update_write_offset_done cfg ts m Hcfg Hm Hts Hfit)
    as (b1 & Hb1 & L1 & Hrun).
  fold p new in Hb1, L1, Hrun.
  pose proof (wf_write_offset cfg m Hm) as Hwo.
  pose proof (wf_buffer_size cfg m Hm) as Hbs. fold p in Hwo, Hbs.
  unfold ARRAY_LENGTH in Hfit. fold p in Hfit.
  eexists. split; [exact Hrun|].
  cbn [with_playback g_playback buffer set_buffer set_buffer_write_offset].
  assert (Hcopy : ∀ i : nat,
             new - buffer_size p ≤ Z.of_nat i →
             (if decide (buffer_size p < new)
              then copy_back b1 (buffer_size p) (new - buffer_size p) else b1) !! i
             = b1 !! i).
  { intros i Hi. destruct (decide (buffer_size p < new)); [|done].
    apply copy_back_other; unfold new in *; lia. }
  split.
  - intros i Hi Hout. rewrite Hcopy by done.
    unfold swap_received_samples in Hb1.
    destruct (decide (AUDIO_RESOLUTION_BIT cfg = 32)) as [Hres|Hres].
    + apply (swap_sample_words_other _ _ _ _ i Hb1).
      rewrite (cfg_sample_word cfg Hcfg Hres).
      rewrite Z2Nat.id by (apply Z.div_pos; lia).
      pose proof (Z.mul_div_le ts 4 ltac:(lia)). unfold new in *. fold p. lia.
    + by injection Hb1 as <-.
  - intros Hres i Hi. rewrite Hcopy by done.
    unfold swap_received_samples in Hb1. rewrite decide_False in Hb1 by done.
    by injection Hb1 as <-.
Qed.

Lemma write_leaves_other_bytes_witness :
  ∃ m', audio_playback_update_write_offset config_32bit 8 machine_32bit_at_28 = Done m'
        ∧ buffer (g_playback m') !! 27%nat = buffer (g_playback machine_32bit_at_28) !! 27%nat
        ∧ buffer (g_playback m') !! 4%nat = buffer (g_playback machine_32bit_at_28) !! 4%nat.
Proof.
  destruct (write_leaves_other_bytes config_32bit 8 machine_32bit_at_28)
    as (m' & Hrun & Hother & _).
  - split; cbn; [lia | lia | reflexivity | intros _; reflexivity].
  - split; vm_compute; [reflexivity | discriminate | discriminate].
  - lia.
  - vm_compute. reflexivity.
  - exists m'. split; [exact Hrun|]. split.
    + apply Hother; [vm_compute; discriminate | left; vm_compute; reflexivity].
    + apply Hother; [vm_compute; discriminate | left; vm_compute; reflexivity].
Defined.

(** ** Stopping, configuring, initialising *)

(** X7: [audio_playback_stop_streaming] on a streaming machine.  While
    buffering it clears the streaming flag and nothing else: the offsets and
    the fill size keep their values and nothing is posted.  While playing
    it clears both flags, sets the offsets and the fill size to 0 and posts
    one stop message; the packet size, the nominal size, the target fill
    size and the buffer are kept, and no USB call is made. *)
Theorem stop_streaming_buffering_or_playing (usbp : Z) (m : machine) :
  b_streaming_enabled (g_playback m) = true →
  let m' := audio_playback_stop_streaming usbp m in
  (b_playback_enabled (g_playback m) = false →
   m' = with_playback (set_b_streaming_enabled false) m)
  ∧ (b_playback_enabled (g_playback m) = true →
     b_streaming_enabled (g_playback m') = false
     ∧ b_playback_enabled (g_playback m') = false
     ∧ buffer_write_offset (g_playback m') = 0
     ∧ buffer_read_offset (g_playback m') = 0
     ∧ buffer_fill_size (g_playback m') = 0
     ∧ packet_size (g_playback m') = packet_size (g_playback m)
     ∧ buffer_size (g_playback m') = buffer_size (g_playback m)
     ∧ buffer_target_fill_size (g_playback m') = buffer_target_fill_size (g_playback m)
     ∧ buffer (g_playback m') = buffer (g_playback m)
     ∧ events_since m m' = [chMBPostI (gp_mailbox m) AUDIO_COMMON_MSG_STOP_PLAYBACK]).
Proof.
  intros Hs m'. subst m'. unfold audio_playback_stop_streaming. rewrite Hs. cbn [negb].
  unfold audio_playback_stop, audio_playback_is_enabled. cbn. split; intros Hp; rewrite Hp.
  - done.
  - cbn. repeat split; try done. unfold events_since. cbn. apply drop_app_length.
Qed.

Lemma stop_streaming_buffering_or_playing_witness :
  buffer_write_offset (g_playback (audio_playback_stop_streaming 7 buffering_machine)) = 768
  ∧ io_log (audio_playback_stop_streaming 7 buffering_machine) = io_log buffering_machine
  ∧ buffer_write_offset (g_playback (audio_playback_stop_streaming 7 playing_machine)) = 0
  ∧ events_since playing_machine (audio_playback_stop_streaming 7 playing_machine)
    = [chMBPostI 5 AUDIO_COMMON_MSG_STOP_PLAYBACK].
Proof.
  destruct (stop_streaming_buffering_or_playing 7 buffering_machine) as [Hb _];
    [reflexivity|].
  destruct (stop_streaming_buffering_or_playing 7 playing_machine) as [_ Hp];
    [reflexivity|].
  destruct Hp as (_ & _ & Hwo & _ & _ & _ & _ & _ & _ & Hev); [reflexivity|].
  split; [|split; [|split; [exact Hwo | exact Hev]]].
  - rewrite Hb by reflexivity. vm_compute. reflexivity.
  - rewrite Hb by reflexivity. vm_compute. reflexivity.
Defined.

(** X8: [audio_playback_set_sample_rate] changes the packet size, the
    nominal size and the target fill size and nothing else (offsets, fill
    size, flags, buffer, mailbox and log are kept), and of two calls in a
    row the second decides.  When the buffer holds at least two packets and
    the sizes do not overflow, the nominal size is packet count times packet
    size and the target fill size lies at or above half of it and below
    it. *)
Theorem set_sample_rate_sizes (cfg : audio_config) (rate rate' : Z) (m : machine) :
  let m' := audio_playback_set_sample_rate cfg rate m in
  let size := AUDIO_COMMON_GET_PACKET_SIZE cfg (AUDIO_CHANNEL_COUNT cfg) rate
                (AUDIO_SAMPLE_SIZE cfg) in
  audio_playback_set_sample_rate cfg rate (audio_playback_set_sample_rate cfg rate' m) = m'
  ∧ m' = with_playback
           (fun p => set_buffer_target_fill_size (buffer_target_fill_size (g_playback m'))
                       (set_buffer_size (buffer_size (g_playback m'))
                          (set_packet_size (packet_size (g_playback m')) p))) m
  ∧ (2 ≤ AUDIO_BUFFER_PACKET_COUNT cfg → 0 < size →
     AUDIO_BUFFER_PACKET_COUNT cfg * size < 2 ^ SIZE_T_BITS →
     packet_size (g_playback m') = size
     ∧ buffer_size (g_playback m') = AUDIO_BUFFER_PACKET_COUNT cfg * size
     ∧ buffer_size (g_playback m') / 2 ≤ buffer_target_fill_size (g_playback m')
       < buffer_size (g_playback m')).
Proof.
  intros m' size. split; [reflexivity|]. split; [reflexivity|].
  intros Hcount Hsize Hfit. subst m'. cbn. fold size.
  assert (Hps : size_t_wrap size = size) by (apply size_t_wrap_small; nia).
  rewrite Hps. unfold AUDIO_COMMON_GET_BUFFER_SIZE, size_mul.
  rewrite (size_t_wrap_small (AUDIO_BUFFER_PACKET_COUNT cfg * size)) by nia.
  set (bs := AUDIO_BUFFER_PACKET_COUNT cfg * size) in *.
  assert (Hbs : 2 * size ≤ bs) by (unfold bs; nia).
  pose proof (Z.div_mod bs 2 ltac:(lia)) as Hd1.
  pose proof (Z.mod_pos_bound bs 2 ltac:(lia)) as Hm1.
  pose proof (Z.div_mod size 2 ltac:(lia)) as Hd2.
  pose proof (Z.mod_pos_bound size 2 ltac:(lia)) as Hm2.
  unfold size_add. rewrite size_t_wrap_small by lia.
  repeat split; lia.
Qed.

Lemma set_sample_rate_sizes_witness :
  buffer_size (g_playback (audio_playback_set_sample_rate config_16bit 96000
                             (initial_machine config_16bit))) = 8 * 384
  ∧ 1536 ≤ buffer_target_fill_size
             (g_playback (audio_playback_set_sample_rate config_16bit 96000
                            (initial_machine config_16bit))) < 3072.
Proof.
  destruct (set_sample_rate_sizes config_16bit 96000 0 (initial_machine config_16bit))
    as (_ & _ & Hsizes).
  destruct Hsizes as (_ & Hbs & Htarget).
  - vm_compute. discriminate.
  - reflexivity.
  - reflexivity.
  - split; [exact Hbs|]. rewrite Hbs in Htarget. exact Htarget.
Defined.

(** X9: the read offset that [audio_playback_update_read_offset] stores.
    With the I2S driver not active it is 0, whatever the DMA counter holds.
    With the driver active it is the nominal size minus the bytes of the
    samples still to be transferred (the counter, halved for 32 bit
    samples, times the sample size): it lies in [0, buffer_size] and is
    buffer_size itself, one past the last offset of the nominal buffer, when
    nothing is left to transfer; when more bytes are left than the nominal
    size the subtraction wraps around [size_t].  No other field changes. *)
Theorem read_offset_from_dma_counter (cfg : audio_config) (i2s : I2SDriver) (m : machine) :
  let m' := audio_playback_update_read_offset cfg i2s m in
  let samples := if decide (AUDIO_RESOLUTION_BIT cfg = 32)
                 then size_t_wrap (i2s_NDTR i2s) / 2 else size_t_wrap (i2s_NDTR i2s) in
  let bytes := AUDIO_SAMPLE_SIZE cfg * samples in
  m' = with_playback (set_buffer_read_offset (buffer_read_offset (g_playback m'))) m
  ∧ (i2s_state i2s ≠ I2S_ACTIVE → buffer_read_offset (g_playback m') = 0)
  ∧ (i2s_state i2s = I2S_ACTIVE →
     0 ≤ bytes < 2 ^ SIZE_T_BITS →
     0 ≤ buffer_size (g_playback m) < 2 ^ SIZE_T_BITS →
     (bytes ≤ buffer_size (g_playback m) →
      buffer_read_offset (g_playback m') = buffer_size (g_playback m) - bytes
      ∧ 0 ≤ buffer_read_offset (g_playback m') ≤ buffer_size (g_playback m)
      ∧ (bytes = 0 → buffer_read_offset (g_playback m') = buffer_size (g_playback m)))
     ∧ (buffer_size (g_playback m) < bytes →
        buffer_read_offset (g_playback m')
        = 2 ^ SIZE_T_BITS - (bytes - buffer_size (g_playback m))
        ∧ buffer_size (g_playback m) < buffer_read_offset (g_playback m'))).
Proof.
  intros m' samples bytes. subst m'. unfold audio_playback_update_read_offset.
  fold samples. destruct (decide (i2s_state i2s = I2S_ACTIVE)) as [Ha|Ha].
  - split; [reflexivity|]. split; [done|]. intros _ Hbytes Hbs. cbn.
    unfold size_mul. fold bytes. rewrite (size_t_wrap_small bytes) by done.
    unfold size_sub. split.
    + intros Hle. rewrite size_t_wrap_small by lia. repeat split; lia.
    + intros Hgt. unfold size_t_wrap.
      replace (buffer_size (g_playback m) - bytes)
        with (2 ^ SIZE_T_BITS - (bytes - buffer_size (g_playback m))
              + (-1) * 2 ^ SIZE_T_BITS) by lia.
      rewrite Z.mod_add by (by compute). rewrite Z.mod_small by lia. lia.
  - split; [reflexivity|]. split; [done|]. done.
Qed.

Lemma read_offset_from_dma_counter_witness :
  buffer_read_offset
    (g_playback (audio_playback_update_read_offset config_16bit (i2s_running 0)
                   playing_machine)) = 1536
  ∧ buffer_read_offset
      (g_playback (audio_playback_update_read_offset config_16bit i2s_idle
                     playing_machine)) = 0
  ∧ buffer_read_offset
      (g_playback (audio_playback_update_read_offset config_32bit (i2s_running 24)
                     machine_32bit_at_28)) = 2 ^ 32 - 16.
Proof.
  destruct (read_offset_from_dma_counter config_16bit (i2s_running 0) playing_machine)
    as (_ & _ & Hactive).
  destruct (read_offset_from_dma_counter config_16bit i2s_idle playing_machine)
    as (_ & Hidle & _).
  destruct (read_offset_from_dma_counter config_32bit (i2s_running 24) machine_32bit_at_28)
    as (_ & _ & Hwrap).
  split; [|split].
  - destruct Hactive as [Hle _].
    + reflexivity.
    + vm_compute. split; [discriminate | reflexivity].
    + vm_compute. split; [discriminate | reflexivity].
    + destruct Hle as (_ & _ & Hzero); [vm_compute; discriminate|].
      apply Hzero. reflexivity.
  - apply Hidle. discriminate.
  - destruct Hwrap as [_ Hgt].
    + reflexivity.
    + vm_compute. split; [discriminate | reflexivity].
    + vm_compute. split; [discriminate | reflexivity].
    + destruct Hgt as [Heq _]; [vm_compute; reflexivity|]. exact Heq.
Defined.

(** X10: [audio_playback_init] logs nothing.  After an initialisation with
    streaming enabled, [audio_playback_start_streaming] returns at once: no
    feedback packet is sent and no reception is armed.  After an
    initialisation with streaming disabled it sends the empty feedback
    packet and arms the first reception at offset 0, and posts go to the
    mailbox given to the initialisation. *)
Theorem init_then_start_streaming (cfg : audio_config) (p_mailbox usbp : Z) (m : machine) :
  io_log (audio_playback_init p_mailbox true m) = io_log m
  ∧ audio_playback_start_streaming cfg usbp (audio_playback_init p_mailbox true m)
    = audio_playback_init p_mailbox true m
  ∧ events_since m
      (audio_playback_start_streaming cfg usbp (audio_playback_init p_mailbox false m))
    = [usbStartTransmitI usbp (AUDIO_FEEDBACK_ENDPOINT cfg) 0;
       usbStartReceiveI usbp (AUDIO_PLAYBACK_ENDPOINT cfg) 0 (AUDIO_MAX_PACKET_SIZE cfg)]
  ∧ gp_mailbox (audio_playback_start_streaming cfg usbp
                  (audio_playback_init p_mailbox false m)) = p_mailbox.
Proof.
  split; [reflexivity|]. split; [reflexivity|]. split; [|reflexivity].
  apply events_since_app. cbn. by rewrite <- app_assoc.
Qed.

(** ** The audio event handling in [main.c] *)

(** X11: what one pass of the event loop of [main] sends to the amplifiers.
    While the audio module is not streaming, mute and volume events send
    nothing: the only possible call is the reset of both channels to the
    maximum volume.  While it is streaming, a mute or volume event makes the
    last call for each channel set that channel's own state (mute, or its
    volume), also when a volume reset is flagged in the same pass, because
    the reset is sent first.  Without any of the three flags nothing is
    sent. *)
Theorem main_audio_event_calls (ec : event_config) (event_flags : Z) (a : audio_status) :
  let calls := main_audio_event ec event_flags a in
  let reset := event_flag_set event_flags (AUDIO_EVENT_RESET_VOLUME ec) in
  let adjust := event_flag_set event_flags (AUDIO_EVENT_SET_MUTE_STATE ec)
                || event_flag_set event_flags (AUDIO_EVENT_SET_VOLUME ec) in
  (audio_is_streaming a = false →
   calls = if reset
           then [tas2780_set_volume_all (TAS2780_VOLUME_MAX ec) TAS2780_CHANNEL_BOTH]
           else [])
  ∧ (audio_is_streaming a = true → adjust = true →
     ∀ channel,
       last_volume channel calls
       = Some (if audio_channel_is_muted a channel then TAS2780_VOLUME_MUTE ec
               else audio_channel_get_volume a channel))
  ∧ (reset = false → adjust = false → calls = []).
Proof.
  intros calls reset adjust. subst calls. unfold main_audio_event.
  fold reset. fold adjust. split; [|split].
  - intros ->. rewrite andb_false_r, app_nil_r. done.
  - intros -> ->. intros channel. cbn [andb].
    unfold last_volume. rewrite rev_app_distr. cbn [rev app].
    destruct channel, reset,
      (audio_channel_is_muted a AUDIO_CHANNEL_LEFT),
      (audio_channel_is_muted a AUDIO_CHANNEL_RIGHT); reflexivity.
  - intros -> ->. reflexivity.
Qed.

Lemma main_audio_event_calls_witness :
  main_audio_event example_events 6 (example_status false) = []
  ∧ last_volume AUDIO_CHANNEL_LEFT (main_audio_event example_events 5 (example_status true))
    = Some 255
  ∧ last_volume AUDIO_CHANNEL_RIGHT (main_audio_event example_events 5 (example_status true))
    = Some 40
  ∧ main_audio_event example_events 8 (example_status true) = [].
Proof.
  destruct (main_audio_event_calls example_events 6 (example_status false)) as (Hidle & _ & _).
  destruct (main_audio_event_calls example_events 5 (example_status true)) as (_ & Hadjust & _).
  destruct (main_audio_event_calls example_events 8 (example_status true)) as (_ & _ & Hnone).
  split; [apply Hidle; reflexivity|].
  split; [apply (Hadjust eq_refl eq_refl AUDIO_CHANNEL_LEFT)|].
  split; [apply (Hadjust eq_refl eq_refl AUDIO_CHANNEL_RIGHT)|].
  apply Hnone; reflexivity.
Defined.

(** ** Buffering up to the target *)

(** A packet that arrives while the I2S side is not active and that does not
    reach the nominal end of the buffer. *)
Lemma received_cb_idle_no_wrap (cfg : audio_config) (usbp ep ts : Z) (i2s : I2SDriver)
    (m : machine) :
  config_wf cfg → machine_wf cfg m →
  let p := g_playback m in
  let new := buffer_write_offset p + ts in
  b_streaming_enabled p = true →
  0 < ts → i2s_state i2s ≠ I2S_ACTIVE →
  new < buffer_size p → new < ARRAY_LENGTH (buffer p) →
  ∃ m', audio_playback_received_cb cfg usbp ep ts i2s m = Done m'
        ∧ machine_wf cfg m'
        ∧ buffer_size (g_playback m') = buffer_size p
        ∧ buffer_target_fill_size (g_playback m') = buffer_target_fill_size p
        ∧ b_streaming_enabled (g_playback m') = true
        ∧ buffer_write_offset (g_playback m') = new
        ∧ buffer_fill_size (g_playback m') = new
        ∧ (b_playback_enabled (g_playback m') = true
           ↔ b_playback_enabled p = true ∨ buffer_target_fill_size p ≤ new).
Proof.
  intros Hcfg Hm p new Hs Hts Hi2s Hnowrap Hfit.
  destruct (audio_playback_update_write_offset_done cfg ts m Hcfg Hm ltac:(lia) Hfit)
    as (b1 & Hb1 & L1 & Hrun).
  fold p new in Hb1, L1, Hrun.
  rewrite decide_False in Hrun by lia.
  pose proof (wf_write_offset cfg m Hm) as Hwo.
  pose proof (wf_buffer_length cfg m Hm) as Hlen. fold p in Hwo, Hlen.
  assert (Hmod : wrap_unsigned new (buffer_size p) = new).
  { unfold wrap_unsigned. apply Z.mod_small. unfold new. lia. }
  assert (Hfill : subtract_circular_unsigned new 0 (buffer_size p) = new).
  { unfold subtract_circular_unsigned. rewrite Z.sub_0_r. apply Z.mod_small. unfold new. lia. }
  rewrite Hmod in Hrun.
  rewrite audio_playback_received_cb_packet by (done || lia).
  rewrite Hrun, bind_Done.
  unfold audio_playback_update_read_offset. rewrite decide_False by done.
  unfold audio_playback_update_fill_size, audio_playback_start, audio_playback_is_enabled.
  cbn [with_playback g_playback gp_mailbox io_log
       set_buffer set_buffer_write_offset set_buffer_read_offset set_buffer_fill_size
       packet_size buffer buffer_size buffer_write_offset buffer_read_offset
       buffer_target_fill_size buffer_fill_size b_streaming_enabled b_playback_enabled].
  fold p. rewrite Hfill.
  assert (Hwf : ∀ q log, buffer q = b1 → buffer_write_offset q = new →
                         buffer_size q = buffer_size p →
                         machine_wf cfg {| g_playback := q; gp_mailbox := gp_mailbox m;
                                           io_log := log |}).
  { intros q log Hq1 Hq2 Hq3. split; cbn.
    - unfold ARRAY_LENGTH in *. by rewrite Hq1, L1.
    - rewrite Hq2. unfold new. lia.
    - rewrite Hq3. apply (wf_buffer_size cfg m Hm). }
  destruct (b_playback_enabled p) eqn:Hp.
  - eexists. split; [reflexivity|]. cbn. fold p.
    split; [by apply Hwf|]. rewrite Hp. repeat split; auto.
  - destruct (decide (buffer_target_fill_size p ≤ new)) as [Hge|Hlt].
    + eexists. split; [reflexivity|]. cbn. fold p.
      split; [by apply Hwf|]. repeat split; auto.
    + eexists. split; [reflexivity|]. cbn. fold p.
      split; [by apply Hwf|]. rewrite Hp. repeat split; auto.
      intros [H|H]; [discriminate | lia].
Qed.

Lemma step_log_grows (cfg : audio_config) (c : call) (m m' : machine) :
  step cfg c m = Done m' → ∃ new, io_log m' = io_log m ++ new.
Proof.
  intros Hstep. destruct c as [mb b|r|u|u|u ep ts i2s]; cbn [step] in Hstep.
  - injection Hstep as <-. exists []. by rewrite app_nil_r.
  - injection Hstep as <-. exists []. by rewrite app_nil_r.
  - injection Hstep as <-. unfold audio_playback_start_streaming.
    destruct (b_streaming_enabled (g_playback m)).
    + exists []. by rewrite app_nil_r.
    + cbn. eexists. by rewrite <- app_assoc.
  - injection Hstep as <-. unfold audio_playback_stop_streaming, audio_playback_stop.
    destruct (negb (b_streaming_enabled (g_playback m))); [exists []; by rewrite app_nil_r|].
    destruct (negb (audio_playback_is_enabled
                      (with_playback (set_b_streaming_enabled false) m))); cbn.
    + exists []. by rewrite app_nil_r.
    + by eexists.
  - destruct (b_streaming_enabled (g_playback m)) eqn:Hs.
    + destruct (received_cb_log cfg u ep ts i2s m m' Hs Hstep) as [_ Hlog]. by eexists.
    + rewrite received_cb_not_streaming in Hstep by done. injection Hstep as <-.
      exists []. by rewrite app_nil_r.
Qed.

Lemma run_log_grows (cfg : audio_config) (cs : list call) :
  ∀ m m', run cfg cs m = Done m' → ∃ new, io_log m' = io_log m ++ new.
Proof.
  induction cs as [|c cs IH]; intros m m' Hrun; cbn [run] in Hrun.
  - injection Hrun as <-. exists []. by rewrite app_nil_r.
  - apply bind_Done_inv in Hrun as (m1 & Hstep & Hrun).
    destruct (step_log_grows cfg c m m1 Hstep) as [new1 H1].
    destruct (IH m1 m' Hrun) as [new2 H2].
    exists (new1 ++ new2). by rewrite H2, H1, app_assoc.
Qed.

Lemma events_since_trans (m m1 m' : machine) (a : list io_event) :
  io_log m1 = io_log m ++ a → (∃ b, io_log m' = io_log m1 ++ b) →
  events_since m m' = a ++ events_since m1 m'.
Proof.
  intros H1 [b H2]. rewrite (events_since_app m1 m' b H2).
  apply events_since_app. by rewrite H2, H1, app_assoc.
Qed.

(** X12: with the I2S side not active, [n] packets of [ts] bytes that stay
    below the nominal end of the buffer leave write offset and fill size at
    the offset before plus [n * ts]; playback is enabled afterwards exactly
    when it was enabled before or the fill size has reached the target, and
    the log gains the one start message of that change, or none. *)
Theorem buffering_until_target (cfg : audio_config) (usbp ep ts : Z) (i2s : I2SDriver)
    (n : nat) :
  ∀ (m : machine),
    config_wf cfg → machine_wf cfg m →
    let p := g_playback m in
    let total := buffer_write_offset p + Z.of_nat n * ts in
    b_streaming_enabled p = true →
    0 < ts → (0 < n)%nat → i2s_state i2s ≠ I2S_ACTIVE →
    total < buffer_size p → total < ARRAY_LENGTH (buffer p) →
    ∃ m', run cfg (replicate n (CallReceived usbp ep ts i2s)) m = Done m'
          ∧ buffer_write_offset (g_playback m') = total
          ∧ buffer_fill_size (g_playback m') = total
          ∧ (b_playback_enabled (g_playback m') = true
             ↔ b_playback_enabled p = true ∨ buffer_target_fill_size p ≤ total)
          ∧ posts (events_since m m')
            = posts (transition_posts (gp_mailbox m) (b_playback_enabled p)
                       (b_playback_enabled (g_playback m'))).
Proof.
  induction n as [|n IH]; intros m Hcfg Hm p total Hs Hts Hn Hi2s Hnowrap Hfit; [lia|].
  pose proof (wf_write_offset cfg m Hm) as Hwo. fold p in Hwo.
  destruct (received_cb_idle_no_wrap cfg usbp ep ts i2s m Hcfg Hm Hs Hts Hi2s)
    as (m1 & Hstep & Hm1 & Hbs1 & Ht1 & Hs1 & Hwo1 & Hfill1 & Hp1);
    fold p; [unfold total in *; nia | unfold total in *; nia |].
  destruct (received_cb_log cfg usbp ep ts i2s m m1 Hs Hstep) as [Hmb1 Hlog1].
  fold p in Hbs1, Ht1, Hwo1, Hfill1, Hp1, Hlog1.
  cbn [replicate run step]. rewrite Hstep, bind_Done.
  destruct n as [|n].
  - exists m1. cbn [replicate run]. split; [done|].
    replace total with (buffer_write_offset p + ts) by (unfold total; lia).
    split; [done|]. split; [done|]. split; [done|].
    rewrite (events_since_app m m1 _ Hlog1), posts_app. cbn. by rewrite app_nil_r.
  - assert (Htotal : buffer_write_offset p + ts + Z.of_nat (S n) * ts = total)
      by (unfold total; lia).
    destruct (IH m1 Hcfg Hm1 Hs1 Hts ltac:(lia) Hi2s)
      as (m' & Hrun & Hwo' & Hfill' & Hp' & Hposts').
    + rewrite Hwo1, Hbs1, Htotal. exact Hnowrap.
    + rewrite Hwo1, Htotal. destruct Hm1 as [Hlen1 _ _]. unfold ARRAY_LENGTH in *.
      rewrite Hlen1, <- (wf_buffer_length cfg m Hm). exact Hfit.
    + rewrite Hwo1, Ht1, Htotal in *.
      exists m'. split; [done|]. split; [done|]. split; [done|].
      assert (Hmono : buffer_target_fill_size p ≤ buffer_write_offset p + ts →
                      buffer_target_fill_size p ≤ total) by (unfold total; nia).
      split; [tauto|].
      rewrite (events_since_trans m m1 m' _ Hlog1 (run_log_grows cfg _ m1 m' Hrun)).
      rewrite !posts_app, Hposts', Hmb1. cbn [posts flat_map]. rewrite app_nil_r.
      destruct (b_playback_enabled p), (b_playback_enabled (g_playback m1)),
        (b_playback_enabled (g_playback m')); try reflexivity; exfalso;
        first [ pose proof (proj2 Hp1 (or_introl eq_refl)) as H; discriminate H
              | pose proof (proj2 Hp' (or_introl eq_refl)) as H; discriminate H ].
Qed.

Lemma buffering_until_target_witness :
  ∃ m', run config_16bit (replicate 5 (CallReceived 7 1 192 i2s_idle))
          (after config_16bit (take 3 session_48k)) = Done m'
        ∧ buffer_fill_size (g_playback m') = 960
        ∧ b_playback_enabled (g_playback m') = true.
Proof.
  destruct (buffering_until_target config_16bit 7 1 192 i2s_idle 5
              (after config_16bit (take 3 session_48k)))
    as (m' & Hrun & _ & Hfill & Hp & _).
  - split; cbn; [lia | lia | reflexivity | intros H; discriminate H].
  - split; vm_compute; [reflexivity | discriminate | discriminate].
  - reflexivity.
  - lia.
  - lia.
  - discriminate.
  - vm_compute. reflexivity.
  - vm_compute. reflexivity.
  - exists m'. split; [exact Hrun|]. split; [exact Hfill|].
    apply Hp. right. vm_compute. discriminate.
Defined.
